(** * GLprimer: the 4x4 matrix algebra and the per-frame composition

    A shallow embedding of [src/GLprimer/GLprimer.cpp].  The matrix
    functions of the source ([mat4mult], [mat4identity], [mat4rotx],
    [mat4roty], [mat4rotz], [mat4scale], [mat4translate],
    [mat4perspective]) are written once over an interface of scalar
    operations and then read at two instances:

    - [F32.scalar]: IEEE 754 binary32 with round-to-nearest-even, the
      arithmetic of the C++ type [float] (Corelib's [SpecFloat], which is
      executable);
    - [Ideal.scalar]: the real numbers, the arithmetic the comments of the
      source and its documentation reason in.

    The body of the rendering loop of [main] is embedded as a function on
    an explicit record of the OpenGL state it writes.  The matrices the
    specification names ([Spec.rotateY], [Spec.multiply], ...) are
    defined a second time from its words, and the matrices of the code
    are compared with them. *)

From Stdlib Require Import ZArith List Bool Lia.
From Stdlib Require Import Floats.SpecFloat.
From Stdlib Require Import Reals Lra.
Import ListNotations.

(** ** Scalars *)

(** What the matrix code needs of its number type: the operators it
    writes and the conversion of an integer literal. *)
Class Scalar (F : Type) : Type := {
  add : F -> F -> F;
  sub : F -> F -> F;
  mul : F -> F -> F;
  div : F -> F -> F;
  neg : F -> F;
  of_int : Z -> F
}.

(** What the code takes from [<cmath>].  It calls [cos], [sin] and [tan]
    unqualified on a [float]: by the platform that is the overload at
    [float], or the function of C at [double], whose result is converted
    to [float] where it is stored.  [cos x] and [sin x] are the values
    stored; [recip_tan x] is the value of the expression [1/tan(x)]
    stored in a [float], the quotient taken in the type [tan] returns
    ([Cmath] below writes out the two readings). *)
Class Trig (F : Type) : Type := {
  cos : F -> F;
  sin : F -> F;
  recip_tan : F -> F
}.

Declare Scope scalar_scope.
Delimit Scope scalar_scope with sc.
Infix "+" := add : scalar_scope.
Infix "-" := sub : scalar_scope.
Infix "*" := mul : scalar_scope.
Infix "/" := div : scalar_scope.
Notation "- x" := (neg x) : scalar_scope.

(** ** The matrix functions of the source *)

Section Mat4.
Context {F : Type} {S : Scalar F} {L : Trig F}.
Local Open Scope scalar_scope.

(** The literals [0.0f], [1.0f] and the [int] literals [1] and [2]. *)
Definition f0 : F := of_int 0.
Definition f1 : F := of_int 1.
Definition f2 : F := of_int 2.

(** [std::array<float, 16>]: the sixteen entries in index order.
    [m[i]] is [at_ m i]. *)
Definition mat4 : Type := list F.

Definition at_ (m : mat4) (i : nat) : F := nth i m f0.

Definition mat4mult (m1 m2 : mat4) : mat4 :=
  [ at_ m1 0 * at_ m2 0 + at_ m1 4 * at_ m2 1 + at_ m1 8 * at_ m2 2 + at_ m1 12 * at_ m2 3;
    at_ m1 1 * at_ m2 0 + at_ m1 5 * at_ m2 1 + at_ m1 9 * at_ m2 2 + at_ m1 13 * at_ m2 3;
    at_ m1 2 * at_ m2 0 + at_ m1 6 * at_ m2 1 + at_ m1 10 * at_ m2 2 + at_ m1 14 * at_ m2 3;
    at_ m1 3 * at_ m2 0 + at_ m1 7 * at_ m2 1 + at_ m1 11 * at_ m2 2 + at_ m1 15 * at_ m2 3;

    at_ m1 0 * at_ m2 4 + at_ m1 4 * at_ m2 5 + at_ m1 8 * at_ m2 6 + at_ m1 12 * at_ m2 7;
    at_ m1 1 * at_ m2 4 + at_ m1 5 * at_ m2 5 + at_ m1 9 * at_ m2 6 + at_ m1 13 * at_ m2 7;
    at_ m1 2 * at_ m2 4 + at_ m1 6 * at_ m2 5 + at_ m1 10 * at_ m2 6 + at_ m1 14 * at_ m2 7;
    at_ m1 3 * at_ m2 4 + at_ m1 7 * at_ m2 5 + at_ m1 11 * at_ m2 6 + at_ m1 15 * at_ m2 7;

    at_ m1 0 * at_ m2 8 + at_ m1 4 * at_ m2 9 + at_ m1 8 * at_ m2 10 + at_ m1 12 * at_ m2 11;
    at_ m1 1 * at_ m2 8 + at_ m1 5 * at_ m2 9 + at_ m1 9 * at_ m2 10 + at_ m1 13 * at_ m2 11;
    at_ m1 2 * at_ m2 8 + at_ m1 6 * at_ m2 9 + at_ m1 10 * at_ m2 10 + at_ m1 14 * at_ m2 11;
    at_ m1 3 * at_ m2 8 + at_ m1 7 * at_ m2 9 + at_ m1 11 * at_ m2 10 + at_ m1 15 * at_ m2 11;

    at_ m1 0 * at_ m2 12 + at_ m1 4 * at_ m2 13 + at_ m1 8 * at_ m2 14 + at_ m1 12 * at_ m2 15;
    at_ m1 1 * at_ m2 12 + at_ m1 5 * at_ m2 13 + at_ m1 9 * at_ m2 14 + at_ m1 13 * at_ m2 15;
    at_ m1 2 * at_ m2 12 + at_ m1 6 * at_ m2 13 + at_ m1 10 * at_ m2 14 + at_ m1 14 * at_ m2 15;
    at_ m1 3 * at_ m2 12 + at_ m1 7 * at_ m2 13 + at_ m1 11 * at_ m2 14 + at_ m1 15 * at_ m2 15 ].

Definition mat4identity : mat4 :=
  [ f1; f0; f0; f0;
    f0; f1; f0; f0;
    f0; f0; f1; f0;
    f0; f0; f0; f1 ].

Definition mat4rotx (angle : F) : mat4 :=
  [ f1; f0; f0; f0;
    f0; cos angle; sin angle; f0;
    f0; - sin angle; cos angle; f0;
    f0; f0; f0; f1 ].

Definition mat4roty (angle : F) : mat4 :=
  [ cos angle; f0; sin angle; f0;
    f0; f1; f0; f0;
    - sin angle; f0; cos angle; f0;
    f0; f0; f0; f1 ].

Definition mat4rotz (angle : F) : mat4 :=
  [ cos angle; sin angle; f0; f0;
    - sin angle; cos angle; f0; f0;
    f0; f0; f1; f0;
    f0; f0; f0; f1 ].

Definition mat4scale (scale : F) : mat4 :=
  [ scale; f0; f0; f0;
    f0; scale; f0; f0;
    f0; f0; scale; f0;
    f0; f0; f0; f1 ].

Definition mat4translate (x y z : F) : mat4 :=
  [ f1; f0; f0; f0;
    f0; f1; f0; f0;
    f0; f0; f1; f0;
    x; y; z; f1 ].

Definition mat4perspective (vfov aspect znear zfar : F) : mat4 :=
  let f := recip_tan (vfov / f2) in
  [ f / aspect; f0; f0; f0;
    f0; f; f0; f0;
    f0; f0; - ((zfar + znear) / (zfar - znear)); - f1;
    f0; f0; - ((f2 * znear * zfar) / (zfar - znear)); f0 ].

End Mat4.

(** ** Binary32 *)

Module F32.

Definition prec : Z := 24.
Definition emax : Z := 128.

Definition float : Type := spec_float.

(** The values of the C++ type: canonical mantissa and exponent. *)
Definition valid (x : float) : bool := valid_binary prec emax x.

Definition finite (x : float) : bool :=
  match x with
  | S754_zero _ | S754_finite _ _ _ => true
  | _ => false
  end.

Definition is_zero (x : float) : bool :=
  match x with
  | S754_zero _ => true
  | _ => false
  end.

Definition is_nan (x : float) : bool :=
  match x with
  | S754_nan => true
  | _ => false
  end.

(** The operators [+], [-], [*], [/] and unary [-] of the language on
    [float], and its [==]. *)
Definition fadd : float -> float -> float := SFadd prec emax.
Definition fsub : float -> float -> float := SFsub prec emax.
Definition fmul : float -> float -> float := SFmul prec emax.
Definition fdiv : float -> float -> float := SFdiv prec emax.
Definition fneg : float -> float := SFopp.
Definition eqb (x y : float) : bool := SFeqb x y.

(** An [int] converted to [float]. *)
Definition of_Z (n : Z) : float := binary_normalize prec emax n 0 false.

Definition pzero : float := S754_zero false.
Definition nzero : float := S754_zero true.
Definition one : float := S754_finite false 8388608 (-23).
Definition pinf : float := S754_infinity false.
Definition nan : float := S754_nan.

(** The same datum up to the sign of a zero: what [==] tests on values
    that are not NaN ([same_eqb]). *)
Definition same (x y : float) : Prop :=
  x = y \/ (is_zero x = true /\ is_zero y = true).

(** [r] is the value [m] read back after arithmetic that cannot keep
    the sign of a zero: [r == m], and [r] is [m] itself unless [m] is
    the negative zero. *)
Definition agrees (r m : float) : Prop :=
  eqb r m = true /\ (m <> nzero -> r = m).

(** A finite value of the type. *)
Definition number (x : float) : bool := valid x && finite x.

(** Finite and of absolute value below [2^k]. *)
Definition magnitude_below (x : float) (k : Z) : bool :=
  match x with
  | S754_zero _ => true
  | S754_finite _ m e => (Z.pos (digits2_pos m) + e <=? k)%Z
  | _ => false
  end.

#[export] Instance scalar : Scalar float := {
  add := fadd;
  sub := fsub;
  mul := fmul;
  div := fdiv;
  neg := fneg;
  of_int := of_Z
}.

(** What the C library gives the code at [float]: the code is read with
    any. *)
Definition libm : Type := Trig float.

End F32.

(** ** Binary64, for the [double] subexpressions of [main] *)

Module F64.

Definition prec : Z := 53.
Definition emax : Z := 1024.

Definition double : Type := spec_float.

Definition of_Z (n : Z) : double := binary_normalize prec emax n 0 false.

Definition mul : double -> double -> double := SFmul prec emax.
Definition div : double -> double -> double := SFdiv prec emax.

(** [M_PI] of [<cmath>]: 0x400921FB54442D18. *)
Definition M_PI : double := S754_finite false 7074237752028440 (-51).

(** A [float] promoted to [double]: the same number, renormalised. *)
Definition of_float (x : F32.float) : double :=
  match x with
  | S754_finite s m e => binary_round prec emax s m e
  | _ => x
  end.

(** A [double] converted to [float]: rounded to nearest, ties to even. *)
Definition to_float (x : double) : F32.float :=
  match x with
  | S754_finite s m e => binary_round F32.prec F32.emax s m e
  | _ => x
  end.

End F64.

(** ** The two readings of [<cmath>] *)

Module Cmath.

Import F32.

(** The overloads at [float] are visible: [cos(x)], [sin(x)] and [tan(x)]
    are [float]s, and [1/tan(x)] is a quotient of [float]s. *)
Definition float_overloads (cosf sinf tanf : float -> float) : Trig float :=
  {| cos := cosf;
     sin := sinf;
     recip_tan := fun x => fdiv (of_Z 1) (tanf x) |}.

(** Only the functions of C at [double] are visible: the argument is
    promoted, [1/tan(x)] is a quotient of [double]s, and a result is
    converted to [float] where it is stored. *)
Definition double_only (cosd sind tand : F64.double -> F64.double) : Trig float :=
  {| cos := fun x => F64.to_float (cosd (F64.of_float x));
     sin := fun x => F64.to_float (sind (F64.of_float x));
     recip_tan := fun x =>
       F64.to_float (F64.div (F64.of_Z 1) (tand (F64.of_float x))) |}.

End Cmath.

(** ** The real numbers *)

Module Ideal.

#[export] Instance scalar : Scalar R := {
  add := Rplus;
  sub := Rminus;
  mul := Rmult;
  div := Rdiv;
  neg := Ropp;
  of_int := IZR
}.

#[export] Instance trig : Trig R := {
  cos := Rtrigo_def.cos;
  sin := Rtrigo_def.sin;
  recip_tan := fun x => (1 / Rtrigo1.tan x)%R
}.

End Ideal.

(** ** Applying a matrix to a column vector *)

Section Apply.
Context {F : Type} {S : Scalar F}.
Local Open Scope scalar_scope.

Definition vec4 : Type := list F.

(** Modelled from the spec: the product of a matrix and a column vector
    under the convention [v' = M * v] is computed by the vertex shader,
    which is not part of the sources.  Its four sums are taken in the
    order [mat4mult] takes them, so that a column of a product is the
    left factor applied to the column of the right factor. *)
Definition mat4apply (m : mat4) (v : vec4) : vec4 :=
  [ at_ m 0 * at_ v 0 + at_ m 4 * at_ v 1 + at_ m 8 * at_ v 2 + at_ m 12 * at_ v 3;
    at_ m 1 * at_ v 0 + at_ m 5 * at_ v 1 + at_ m 9 * at_ v 2 + at_ m 13 * at_ v 3;
    at_ m 2 * at_ v 0 + at_ m 6 * at_ v 1 + at_ m 10 * at_ v 2 + at_ m 14 * at_ v 3;
    at_ m 3 * at_ v 0 + at_ m 7 * at_ v 1 + at_ m 11 * at_ v 2 + at_ m 15 * at_ v 3 ].

(** Modelled from the spec: the perspective divide of a clip-space
    vector, done by the graphics pipeline after the vertex shader. *)
Definition perspective_divide (v : vec4) : list F :=
  [ at_ v 0 / at_ v 3; at_ v 1 / at_ v 3; at_ v 2 / at_ v 3 ].

(** Column [c] of a matrix. *)
Definition column (m : mat4) (c : nat) : vec4 :=
  [ at_ m (c * 4); at_ m (c * 4 + 1); at_ m (c * 4 + 2); at_ m (c * 4 + 3) ].

(** The sum over [k = 0, 1, 2, 3] of [a[k*4+r] * b[c*4+k]], added from
    left to right as the source writes it. *)
Definition dot_entry (a b : mat4) (c r : nat) : F :=
  at_ a (0 * 4 + r) * at_ b (c * 4 + 0)
  + at_ a (1 * 4 + r) * at_ b (c * 4 + 1)
  + at_ a (2 * 4 + r) * at_ b (c * 4 + 2)
  + at_ a (3 * 4 + r) * at_ b (c * 4 + 3).

End Apply.

(** ** The matrices of the specification *)

Module Spec.

Section Matrices.
Context {F : Type} {S : Scalar F} {L : Trig F}.
Local Open Scope scalar_scope.

(** Modelled from the spec: a Matrix4 holds its sixteen numbers in
    column-major order, column [c], row [r] at index [c*4+r].
    [of_rows] lays out a matrix written row by row, as mathematics
    writes it. *)
Definition of_rows (rows : list (list F)) : mat4 :=
  flat_map (fun c => map (fun r => nth c (nth r rows []) f0) [0; 1; 2; 3]%nat)
           [0; 1; 2; 3]%nat.


(** Modelled from the spec: [rotateX(angle)], the right-handed rotation
    about the x axis for column vectors: y turns toward z. *)
Definition rotateX (angle : F) : mat4 :=
  of_rows [ [ f1; f0; f0; f0 ];
            [ f0; cos angle; - sin angle; f0 ];
            [ f0; sin angle; cos angle; f0 ];
            [ f0; f0; f0; f1 ] ].

(** Modelled from the spec: [rotateY(angle)], the right-handed rotation
    about the y axis for column vectors: z turns toward x. *)
Definition rotateY (angle : F) : mat4 :=
  of_rows [ [ cos angle; f0; sin angle; f0 ];
            [ f0; f1; f0; f0 ];
            [ - sin angle; f0; cos angle; f0 ];
            [ f0; f0; f0; f1 ] ].

(** Modelled from the spec: [rotateZ(angle)], the right-handed rotation
    about the z axis for column vectors: x turns toward y. *)
Definition rotateZ (angle : F) : mat4 :=
  of_rows [ [ cos angle; - sin angle; f0; f0 ];
            [ sin angle; cos angle; f0; f0 ];
            [ f0; f0; f1; f0 ];
            [ f0; f0; f0; f1 ] ].




End Matrices.

End Spec.

(** ** The OpenGL state the rendering loop writes *)

Module GL.

Import F32.

Inductive mesh : Type := Trex | Sphere | VertexArray.

Inductive texture : Type := TrexTexture | EarthTexture.

(** The one shader program the loop activates, [myTrexShader]. *)
Inductive shader : Type := TrexShader.

(** The uniform variables of the program, by the name
    [glGetUniformLocation] is asked for.  The shader sources are not part
    of the sources; the program is taken to declare the four. *)
Inductive uniform : Type := U_time | U_MV | U_T | U_P.

(** What a draw call is issued with. *)
Record draw : Type := {
  draw_mesh : mesh;
  draw_program : option shader;
  draw_texture : option texture;
  draw_MV : @mat4 float;
  draw_T : @mat4 float;
  draw_P : @mat4 float
}.

(** The viewport, the active program, the bound texture, the uniforms of
    [myTrexShader], and the draw calls issued since the last [glClear]. *)
Record state : Type := {
  viewport : Z * Z * Z * Z;
  program : option shader;
  bound_texture : option texture;
  time_uniform : float;
  MV : @mat4 float;
  T : @mat4 float;
  P : @mat4 float;
  draws : list draw
}.

(** A command: a function of the state that returns a value. *)
Definition cmd (A : Type) : Type := state -> A * state.

Definition ret {A : Type} (a : A) : cmd A := fun s => (a, s).

Definition bind {A B : Type} (c : cmd A) (k : A -> cmd B) : cmd B :=
  fun s => let (a, s') := c s in k a s'.

Definition exec {A : Type} (c : cmd A) (s : state) : state := snd (c s).

Definition glViewport (x y w h : Z) : cmd unit := fun s =>
  (tt, {| viewport := (x, y, w, h); program := program s;
          bound_texture := bound_texture s;
          time_uniform := time_uniform s; MV := MV s; T := T s; P := P s;
          draws := draws s |}).

Definition glUseProgram (p : option shader) : cmd unit := fun s =>
  (tt, {| viewport := viewport s; program := p;
          bound_texture := bound_texture s;
          time_uniform := time_uniform s; MV := MV s; T := T s; P := P s;
          draws := draws s |}).

Definition glBindTexture (t : option texture) : cmd unit := fun s =>
  (tt, {| viewport := viewport s; program := program s;
          bound_texture := t;
          time_uniform := time_uniform s; MV := MV s; T := T s; P := P s;
          draws := draws s |}).

Definition glGetUniformLocation (p : shader) (u : uniform) : cmd uniform := ret u.

(** A uniform is set in the active program; with no program active the
    call is an error and sets nothing. *)
Definition glUniform1f (location : uniform) (v : float) : cmd unit := fun s =>
  (tt, match program s, location with
       | Some TrexShader, U_time =>
           {| viewport := viewport s; program := program s;
              bound_texture := bound_texture s;
              time_uniform := v; MV := MV s; T := T s; P := P s;
              draws := draws s |}
       | _, _ => s
       end).

Definition glUniformMatrix4fv (location : uniform) (m : @mat4 float) : cmd unit := fun s =>
  (tt, match program s, location with
       | Some TrexShader, U_MV =>
           {| viewport := viewport s; program := program s;
              bound_texture := bound_texture s;
              time_uniform := time_uniform s; MV := m; T := T s; P := P s;
              draws := draws s |}
       | Some TrexShader, U_T =>
           {| viewport := viewport s; program := program s;
              bound_texture := bound_texture s;
              time_uniform := time_uniform s; MV := MV s; T := m; P := P s;
              draws := draws s |}
       | Some TrexShader, U_P =>
           {| viewport := viewport s; program := program s;
              bound_texture := bound_texture s;
              time_uniform := time_uniform s; MV := MV s; T := T s; P := m;
              draws := draws s |}
       | _, _ => s
       end).

(** [TriangleSoup::render] and [glDrawElements]: the mesh is drawn with
    the program active, the texture bound and the uniforms set at the time
    of the call. *)
Definition render (g : mesh) : cmd unit := fun s =>
  (tt, {| viewport := viewport s; program := program s;
          bound_texture := bound_texture s;
          time_uniform := time_uniform s; MV := MV s; T := T s; P := P s;
          draws := draws s ++ [ {| draw_mesh := g; draw_program := program s;
                                   draw_texture := bound_texture s;
                                   draw_MV := MV s; draw_T := T s; draw_P := P s |} ] |}).

(** [glClear]: a new picture. *)
Definition glClear : cmd unit := fun s =>
  (tt, {| viewport := viewport s; program := program s;
          bound_texture := bound_texture s;
          time_uniform := time_uniform s; MV := MV s; T := T s; P := P s;
          draws := [] |}).

End GL.

Declare Scope gl_scope.
Delimit Scope gl_scope with gl.
Notation "x <- c ;; k" := (GL.bind c (fun x => k))
  (at level 61, c at next level, right associativity) : gl_scope.
Notation "c ;; k" := (GL.bind c (fun _ => k))
  (at level 61, right associativity) : gl_scope.

(** ** The body of the rendering loop *)

Section Frame.
Import F32.
Context {L : Trig float}.
Local Open Scope gl_scope.

(** What the collaborators return during one iteration:
    [glfwGetWindowSize], [glfwGetTime], and [phi()] and [theta()] of the
    two rotators after [poll()], as the [float] each is passed on as. *)
Record frame_input : Type := {
  width : Z;
  height : Z;
  glfwGetTime : F64.double;
  key_phi : float;
  key_theta : float;
  mouse_phi : float;
  mouse_theta : float
}.

(** The [float] arguments the [double] expressions of the loop convert
    to: [10*(M_PI/100)], [5*(M_PI/100)], [time/4*M_PI] and [M_PI/3.0]. *)
Definition tilt10 : float :=
  F64.to_float (F64.mul (F64.of_Z 10) (F64.div F64.M_PI (F64.of_Z 100))).
Definition tilt5 : float :=
  F64.to_float (F64.mul (F64.of_Z 5) (F64.div F64.M_PI (F64.of_Z 100))).
Definition orbit_angle (time : float) : float :=
  F64.to_float (F64.mul (F64.of_float (fdiv time (of_Z 4))) F64.M_PI).
Definition fov : float :=
  F64.to_float (F64.div F64.M_PI (F64.of_Z 3)).

(** The literals [3.0f], [0.8f], [0.1f] and [100.0f]. *)
Definition lit_3_0 : float := S754_finite false 12582912 (-22).
Definition lit_0_8 : float := S754_finite false 13421773 (-24).
Definition lit_0_1 : float := S754_finite false 13421773 (-27).
Definition lit_100_0 : float := S754_finite false 13107200 (-17).

(** One iteration of the loop, from [glfwGetWindowSize] to the second
    [glDrawElements]; the frame counter, the clear colour, the polygon
    mode and the face culling, which touch none of the state above, are
    left out. *)
Definition frame (i : frame_input) : GL.cmd unit :=
  GL.glViewport 0 0 (width i) (height i) ;;
  GL.glClear ;;
  GL.glBindTexture None ;;
  GL.glUseProgram None ;;
  let time := F64.to_float (glfwGetTime i) in
  GL.glUseProgram (Some GL.TrexShader) ;;
  GL.glUniform1f GL.U_time time ;;
  let matKey := mat4mult (mat4rotz (neg (key_phi i))) (mat4rotx (neg (key_theta i))) in
  let matMouse := mat4mult (mat4rotz (mouse_phi i)) (mat4rotx (neg (mouse_theta i))) in
  GL.glUseProgram (Some GL.TrexShader) ;;
  let vTranslate := mat4translate f0 f0 (neg lit_3_0) in
  let vRot := mat4rotx tilt10 in
  let rSpin := mat4mult (mat4mult (mat4mult vTranslate (mat4roty f1)) vRot) matKey in
  locationR <- GL.glGetUniformLocation GL.TrexShader GL.U_MV ;;
  GL.glUseProgram (Some GL.TrexShader) ;;
  GL.glUniformMatrix4fv locationR rSpin ;;
  GL.glBindTexture (Some GL.TrexTexture) ;;
  GL.render GL.Trex ;;
  let vRot := mat4rotx tilt5 in
  let vOrbit := mat4roty (orbit_angle time) in
  let cT := mat4translate f0 f0 lit_0_8 in
  let matO := mat4mult (mat4mult vOrbit cT) vRot in
  let rSpin := mat4mult (mat4mult (mat4mult vTranslate (mat4roty (orbit_angle time))) vRot) matO in
  locationR <- GL.glGetUniformLocation GL.TrexShader GL.U_MV ;;
  GL.glUseProgram (Some GL.TrexShader) ;;
  GL.glUniformMatrix4fv locationR rSpin ;;
  GL.glBindTexture (Some GL.EarthTexture) ;;
  GL.render GL.Sphere ;;
  let Ilumination := mat4mult matMouse mat4identity in
  locationT <- GL.glGetUniformLocation GL.TrexShader GL.U_T ;;
  GL.glUseProgram (Some GL.TrexShader) ;;
  GL.glUniformMatrix4fv locationT Ilumination ;;
  let P := mat4perspective fov f1 lit_0_1 lit_100_0 in
  locationP <- GL.glGetUniformLocation GL.TrexShader GL.U_P ;;
  GL.glUseProgram (Some GL.TrexShader) ;;
  GL.glUniformMatrix4fv locationP P ;;
  GL.glUseProgram (Some GL.TrexShader) ;;
  GL.render GL.VertexArray ;;
  GL.render GL.VertexArray.

End Frame.

(** ** Reading a frame *)

Module Scene.

Definition mesh_eqb (a b : GL.mesh) : bool :=
  match a, b with
  | GL.Trex, GL.Trex | GL.Sphere, GL.Sphere | GL.VertexArray, GL.VertexArray => true
  | _, _ => false
  end.

(** The model-view matrix a mesh is drawn with in a picture. *)
Definition model_view (g : GL.mesh) (s : GL.state) : option (@mat4 F32.float) :=
  option_map GL.draw_MV (find (fun d => mesh_eqb (GL.draw_mesh d) g) (GL.draws s)).

(** The aspect ratio of the window of a frame. *)
Definition aspect (i : frame_input) : F32.float :=
  F32.fdiv (F32.of_Z (width i)) (F32.of_Z (height i)).

(** The angles a frame takes the cosine and the sine of for its two
    model-view matrices. *)
Definition angles (i : frame_input) : list F32.float :=
  [ F32.one; tilt10; tilt5;
    F32.fneg (key_phi i); F32.fneg (key_theta i);
    orbit_angle (F64.to_float (glfwGetTime i)) ].

(** Two frames that differ at most in the size of the window. *)
Definition same_but_size (i j : frame_input) : Prop :=
  glfwGetTime i = glfwGetTime j /\
  key_phi i = key_phi j /\ key_theta i = key_theta j /\
  mouse_phi i = mouse_phi j /\ mouse_theta i = mouse_theta j.

End Scene.

(** ** A C library to run the code on

    Truncated Taylor series evaluated in [float]; accurate near zero, and
    with [cos] of a zero equal to one and [sin] of a zero that zero, as
    Annex F of the C standard asks of the real ones. *)

Module SampleLibm.

Import F32.

(** [1/c0 + x * (1/c1 + x * (... ))] *)
Fixpoint horner (x : float) (cs : list Z) : float :=
  match cs with
  | [] => pzero
  | c :: cs' => fadd (fdiv one (of_Z c)) (fmul x (horner x cs'))
  end.

Definition cos_series (x : float) : float :=
  horner (fneg (fmul x x)) [1; 2; 24; 720; 40320; 3628800]%Z.

Definition sin_series (x : float) : float :=
  fmul x (horner (fneg (fmul x x)) [1; 6; 120; 5040; 362880; 39916800]%Z).

Definition tan_series (x : float) : float :=
  fdiv (sin_series x) (cos_series x).

Definition lib : libm :=
  Cmath.float_overloads cos_series sin_series tan_series.

End SampleLibm.

(** ** Shapes of matrices *)

Module Shape.

Import F32.

(** The bottom row of an affine transform: entries 3, 7 and 11 are
    [0.0f] and entry 15 is [1.0f]. *)
Definition bottom_row (m : @mat4 float) : Prop :=
  at_ m 3 = pzero /\ at_ m 7 = pzero /\ at_ m 11 = pzero /\ at_ m 15 = one.

(** Every entry is a finite value of the type. *)
Definition numbers (m : list float) : Prop :=
  Forall (fun x => number x = true) m.

(** Every entry is finite and of absolute value below [2^k]. *)
Definition bounded (k : Z) (m : list float) : Prop :=
  Forall (fun x => magnitude_below x k = true) m.

(** Sixteen entries, the bottom row of an affine transform, and every
    entry finite and of absolute value below [2^k]. *)
Definition affine (k : Z) (m : @mat4 float) : Prop :=
  length m = 16 /\ bottom_row m /\ bounded k m.

(** Every entry is finite. *)
Definition finite_entries (m : list float) : Prop :=
  Forall (fun x => finite x = true) m.

End Shape.

(** ** Data to run the code on *)

Module Sample.

Import F32.

Definition a : @mat4 float :=
  map of_Z [1; 2; 3; 4; 5; 6; 7; 8; 9; 10; 11; 12; 13; 14; 15; 16]%Z.

Definition b : @mat4 float :=
  map of_Z [2; 0; 1; 0; 0; 3; 0; 1; 1; 0; 4; 0; 0; 1; 0; 5]%Z.

(** A matrix whose only non-zero bit is the sign of entry 0. *)
Definition negative_zero_matrix : @mat4 float :=
  nzero :: repeat pzero 15.

(** A matrix with an infinite entry: the identity with [+inf] at index 4. *)
Definition infinite_entry_matrix : @mat4 float :=
  [ one; pzero; pzero; pzero;
    pinf; one; pzero; pzero;
    pzero; pzero; one; pzero;
    pzero; pzero; pzero; one ].

Definition state0 : GL.state :=
  {| GL.viewport := (0, 0, 0, 0)%Z; GL.program := None; GL.bound_texture := None;
     GL.time_uniform := pzero;
     GL.MV := repeat pzero 16; GL.T := repeat pzero 16; GL.P := repeat pzero 16;
     GL.draws := [] |}.

(** A frame at time 2 in a window of the given size, no key or mouse
    rotation. *)
Definition input (w h : Z) : frame_input :=
  {| width := w; height := h; glfwGetTime := F64.of_Z 2;
     key_phi := pzero; key_theta := pzero;
     mouse_phi := pzero; mouse_theta := pzero |}.


End Sample.

(** ** The constants of the embedding, checked by evaluation *)

Module Constants.

Import F32.

Example one_of_int : of_Z 1 = one.
Proof. reflexivity. Qed.

Example zero_of_int : of_Z 0 = pzero.
Proof. reflexivity. Qed.

Example lit_3_0_exact : lit_3_0 = of_Z 3.
Proof. reflexivity. Qed.

Example lit_100_0_exact : lit_100_0 = of_Z 100.
Proof. reflexivity. Qed.

(** [0.8f] and [0.1f] are the floats nearest to 8/10 and 1/10. *)
Example lit_0_8_nearest : lit_0_8 = fdiv (of_Z 8) (of_Z 10).
Proof. reflexivity. Qed.

Example lit_0_1_nearest : lit_0_1 = fdiv (of_Z 1) (of_Z 10).
Proof. reflexivity. Qed.

Example literals_valid :
  forallb valid [pzero; nzero; one; lit_3_0; lit_0_8; lit_0_1; lit_100_0;
                 tilt10; tilt5; fov] = true.
Proof. reflexivity. Qed.

(** [M_PI] is the double nearest to pi, 884279719003555 / 2^48, and as a
    [float] it is 0x40490FDB. *)
Example M_PI_double : F64.M_PI = SFdiv F64.prec F64.emax
                                   (F64.of_Z 884279719003555) (F64.of_Z (2 ^ 48)).
Proof. reflexivity. Qed.

Example M_PI_float : F64.to_float F64.M_PI = S754_finite false 13176795 (-22).
Proof. reflexivity. Qed.

(** The angles of the loop: 0x3EA0D97C, 0x3E20D97C and 0x3F860A92. *)
Example tilt10_bits : tilt10 = S754_finite false 10541436 (-25).
Proof. reflexivity. Qed.

Example tilt5_bits : tilt5 = S754_finite false 10541436 (-26).
Proof. reflexivity. Qed.

Example fov_bits : fov = S754_finite false 8784530 (-23).
Proof. reflexivity. Qed.

(** At time 2 the orbit angle is [2/4*pi], pi/2 as a [float]. *)
Example orbit_angle_2 : orbit_angle (of_Z 2) = S754_finite false 13176795 (-23).
Proof. reflexivity. Qed.

(** The sample library at a zero. *)
Example sample_libm_zero :
  SampleLibm.cos_series pzero = one /\ SampleLibm.cos_series nzero = one /\
  SampleLibm.sin_series pzero = pzero /\ SampleLibm.sin_series nzero = nzero.
Proof. repeat split. Qed.

(** A frame issues four draw calls: the two meshes and the vertex array
    twice. *)
Example frame_draws :
  map GL.draw_mesh
      (GL.draws (GL.exec (frame (L := SampleLibm.lib) (Sample.input 400 400)) Sample.state0))
  = [GL.Trex; GL.Sphere; GL.VertexArray; GL.VertexArray].
Proof. reflexivity. Qed.

End Constants.
(** ** Facts of binary32 arithmetic *)

Module F32Facts.

Import F32.

Lemma valid_finite_inv s m e :
  valid (S754_finite s m e) = true ->
  fexp prec emax (Z.pos (digits2_pos m) + e) = e /\ (e <= emax - prec)%Z.
Proof.
  unfold valid, valid_binary, bounded, canonical_mantissa.
  intros H. apply andb_true_iff in H. destruct H as [H1 H2].
  split; [ now apply Z.eqb_eq | now apply Z.leb_le ].
Qed.

(** Multiplying by [1.0f] is exact: the product of the mantissas is
    shifted back by the 23 bits the mantissa of one adds. *)
Lemma fmul_one_r x : valid x = true -> fmul x one = x.
Proof.
  destruct x as [s | s | | s m e]; intros H; try reflexivity.
  - cbn. now destruct s.
  - cbn. now destruct s.
  - destruct (valid_finite_inv _ _ _ H) as [Hc Hb].
    unfold fmul, one. cbn [SFmul]. rewrite xorb_false_r.
    unfold binary_round_aux, shr_fexp.
    rewrite Pos.mul_comm. cbn [Pos.mul Zdigits2 digits2_pos shr_record_of_loc].
    rewrite !Pos2Z.inj_succ.
    replace (fexp prec emax _) with e.
    2:{ rewrite <- Hc at 1. f_equal. lia. }
    replace (e - (e + -23))%Z with 23%Z by lia.
    cbn [shr SpecFloat.iter_pos shr_1 orb].
    cbn [shr_m loc_of_shr_record round_nearest_even Zdigits2 shr_record_of_loc].
    replace (e + -23 + 23)%Z with e by lia.
    rewrite Hc, Z.sub_diag. cbn [shr shr_m].
    apply Z.leb_le in Hb. now rewrite Hb.
Qed.

Lemma fmul_comm x y : fmul x y = fmul y x.
Proof.
  destruct x as [sx | sx | | sx mx ex], y as [sy | sy | | sy my ey];
    cbn; try reflexivity; try (now rewrite xorb_comm).
  now rewrite xorb_comm, Pos.mul_comm, Z.add_comm.
Qed.

Lemma fmul_one_l x : valid x = true -> fmul one x = x.
Proof. intros H. rewrite fmul_comm. now apply fmul_one_r. Qed.

Lemma fadd_comm x y : fadd x y = fadd y x.
Proof.
  destruct x as [sx | sx | | sx mx ex], y as [sy | sy | | sy my ey];
    cbn; try reflexivity; try (now destruct sx, sy).
  now rewrite Z.min_comm, Z.add_comm.
Qed.

(** *** Zeros *)

Lemma is_zero_inv x : is_zero x = true -> exists s, x = S754_zero s.
Proof. destruct x; try discriminate. now eexists. Qed.

Lemma fmul_zero_l z y :
  is_zero z = true -> finite y = true -> is_zero (fmul z y) = true.
Proof. now destruct z, y. Qed.

Lemma fmul_zero_r z y :
  finite y = true -> is_zero z = true -> is_zero (fmul y z) = true.
Proof. now destruct z, y. Qed.

Lemma fadd_zero_zero a b :
  is_zero a = true -> is_zero b = true -> is_zero (fadd a b) = true.
Proof. destruct a as [[|]| | |], b as [[|]| | |]; now cbn. Qed.

Lemma fadd_pzero_l z : is_zero z = true -> fadd pzero z = pzero.
Proof. now destruct z as [[|]| | |]. Qed.

Lemma fadd_pzero_r z : is_zero z = true -> fadd z pzero = pzero.
Proof. now destruct z as [[|]| | |]. Qed.

Lemma fadd_zero_l z x :
  is_zero z = true -> is_zero x = false -> fadd z x = x.
Proof. now destruct z, x. Qed.

Lemma fadd_zero_r z x :
  is_zero z = true -> is_zero x = false -> fadd x z = x.
Proof. now destruct z, x. Qed.

(** *** The comparison [==] *)

Lemma eqb_zeros a b : is_zero a = true -> is_zero b = true -> eqb a b = true.
Proof. now destruct a, b. Qed.

Lemma eqb_refl x : is_nan x = false -> eqb x x = true.
Proof.
  destruct x as [s | s | | s m e]; intros H; try discriminate; try reflexivity.
  - now destruct s.
  - unfold eqb, SFeqb. cbn.
    rewrite Z.compare_refl, Pos.compare_cont_refl. now destruct s.
Qed.

Lemma eqb_zero_inv r z : is_zero z = true -> eqb r z = true -> is_zero r = true.
Proof.
  destruct z; try discriminate. intros _.
  destruct r as [s' | s' | | s' m e]; try reflexivity; unfold eqb, SFeqb; cbn;
    try discriminate; now destruct s'.
Qed.

Lemma same_refl x : same x x.
Proof. now left. Qed.

Lemma same_eqb x y : same x y -> is_nan y = false -> eqb x y = true.
Proof.
  intros [-> | [Hx Hy]] Hn; [ now apply eqb_refl | now apply eqb_zeros ].
Qed.

Lemma same_fadd x x' y y' : same x x' -> same y y' -> same (fadd x y) (fadd x' y').
Proof.
  intros [-> | [Hx Hx']] [-> | [Hy Hy']]; try (now left).
  - destruct (is_zero x') eqn:E.
    + right. split; now apply fadd_zero_zero.
    + left. rewrite !(fadd_comm x'). rewrite !fadd_zero_l; auto.
  - destruct (is_zero y') eqn:E.
    + right. split; now apply fadd_zero_zero.
    + left. rewrite !fadd_zero_l; auto.
  - right. split; now apply fadd_zero_zero.
Qed.

Lemma same_fmul_l x x' y : same x x' -> same (fmul x y) (fmul x' y).
Proof.
  intros [-> | [Hx Hx']]; [ now left | ].
  destruct x; try discriminate. destruct x'; try discriminate.
  destruct y; cbn; try (now left); now right.
Qed.

(** *** A sum that one term decides *)

Lemma agrees_refl m : finite m = true -> agrees m m.
Proof.
  intros H. split; [ | reflexivity ]. apply eqb_refl. now destruct m.
Qed.

Lemma agrees_zero_add z m :
  is_zero z = true -> finite m = true -> agrees (fadd z m) m.
Proof.
  intros Hz Hm. destruct (is_zero m) eqn:E.
  - split.
    + apply eqb_zeros; auto. now apply fadd_zero_zero.
    + intros Hn. destruct m as [[|]| | |]; try discriminate.
      * now elim Hn.
      * now apply fadd_pzero_r.
  - rewrite fadd_zero_l by assumption. now apply agrees_refl.
Qed.

Lemma agrees_add_zero r z m :
  finite m = true -> agrees r m -> is_zero z = true -> agrees (fadd r z) m.
Proof.
  intros Hm [He Hx] Hz. destruct (is_zero m) eqn:E.
  - assert (Hr : is_zero r = true) by now apply eqb_zero_inv with m.
    split.
    + apply eqb_zeros; auto. now apply fadd_zero_zero.
    + intros Hn. rewrite (Hx Hn).
      destruct m as [[|]| | |]; try discriminate.
      * now elim Hn.
      * now apply fadd_pzero_l.
  - assert (Hn : m <> nzero) by (intros ->; discriminate).
    rewrite (Hx Hn). rewrite fadd_zero_r by assumption. now apply agrees_refl.
Qed.

(** *** Rounding a non-negative mantissa never yields NaN *)

Lemma shr_1_nonneg mrs : (0 <= shr_m mrs)%Z -> (0 <= shr_m (shr_1 mrs))%Z.
Proof.
  destruct mrs as [m r s]. cbn [shr_m].
  destruct m as [| p | p]; intros H; [ cbn; lia | | lia ].
  destruct p; cbn; lia.
Qed.

Lemma iter_shr_1_nonneg p :
  forall mrs, (0 <= shr_m mrs)%Z -> (0 <= shr_m (SpecFloat.iter_pos shr_1 p mrs))%Z.
Proof.
  induction p as [p IH | p IH |]; intros mrs H; cbn [SpecFloat.iter_pos].
  - apply IH, IH. now apply shr_1_nonneg.
  - now apply IH, IH.
  - now apply shr_1_nonneg.
Qed.

Lemma shr_fexp_nonneg m e l :
  (0 <= m)%Z -> (0 <= shr_m (fst (shr_fexp prec emax m e l)))%Z.
Proof.
  intros H. unfold shr_fexp, shr.
  assert (H0 : (0 <= shr_m (shr_record_of_loc m l))%Z) by (now destruct l as [| []]).
  destruct (fexp prec emax (Zdigits2 m + e) - e)%Z; cbn [fst]; auto.
  now apply iter_shr_1_nonneg.
Qed.

Lemma round_nearest_even_nonneg m l :
  (0 <= m)%Z -> (0 <= round_nearest_even m l)%Z.
Proof.
  intros H. destruct l as [| []]; cbn; try lia. destruct (Z.even m); lia.
Qed.

Lemma binary_round_aux_not_nan s m e l :
  (0 <= m)%Z -> is_nan (binary_round_aux prec emax s m e l) = false.
Proof.
  intros H. unfold binary_round_aux.
  pose proof (shr_fexp_nonneg m e l H) as H1.
  destruct (shr_fexp prec emax m e l) as [mrs' e']. cbn [fst] in H1.
  pose proof (shr_fexp_nonneg
                (round_nearest_even (shr_m mrs') (loc_of_shr_record mrs')) e' loc_Exact
                (round_nearest_even_nonneg _ _ H1)) as H2.
  destruct (shr_fexp prec emax _ e' loc_Exact) as [mrs'' e'']. cbn [fst] in H2.
  destruct (shr_m mrs'') as [| p | p]; [ reflexivity | | lia ].
  now destruct (e'' <=? emax - prec)%Z.
Qed.

Lemma binary_normalize_not_nan m e s :
  is_nan (binary_normalize prec emax m e s) = false.
Proof.
  destruct m as [| p | p]; [ reflexivity | | ]; cbn [binary_normalize];
    unfold binary_round; destruct (shl_align _ _ _) as [mz ez];
    now apply binary_round_aux_not_nan.
Qed.

Lemma fmul_not_nan x y :
  finite x = true -> finite y = true -> is_nan (fmul x y) = false.
Proof.
  destruct x, y; try discriminate; intros _ _; try reflexivity.
  cbn [fmul SFmul]. unfold fmul. cbn [SFmul].
  now apply binary_round_aux_not_nan.
Qed.

Lemma fadd_not_nan x y :
  finite x = true -> is_nan y = false -> is_nan (fadd x y) = false.
Proof.
  destruct x as [sx | | | sx mx ex], y as [sy | sy | | sy my ey];
    try discriminate; intros _ _; try reflexivity.
  - now destruct sx, sy.
  - unfold fadd. cbn [SFadd]. apply binary_normalize_not_nan.
Qed.

Lemma finite_fneg x : finite x = true -> finite (fneg x) = true.
Proof. now destruct x. Qed.

Lemma valid_fneg x : valid x = true -> valid (fneg x) = true.
Proof. now destruct x. Qed.

Lemma finite_not_nan x : finite x = true -> is_nan x = false.
Proof. now destruct x. Qed.

Lemma agrees_same r m : agrees r m -> same r m.
Proof.
  intros [He Hx]. destruct (is_zero m) eqn:E.
  - right. split; [ now apply eqb_zero_inv with m | exact E ].
  - left. apply Hx. intros ->. discriminate.
Qed.

Lemma fadd_one_zero z : is_zero z = true -> fadd z one = one.
Proof. now destruct z. Qed.

(** *** Magnitudes: no overflow in sums of products of small numbers *)

Local Open Scope Z_scope.

Lemma digits2_pos_size p : digits2_pos p = Pos.size p.
Proof. induction p as [p IH | p IH |]; cbn; now rewrite ?IH. Qed.

Lemma Zdigits2_nonneg m : 0 <= Zdigits2 m.
Proof. destruct m; cbn; lia. Qed.

Lemma Zdigits2_gt m : 0 <= m -> m < 2 ^ Zdigits2 m.
Proof.
  destruct m as [| p | p]; intros H; [ cbn; lia | | lia ].
  cbn [Zdigits2]. rewrite digits2_pos_size.
  pose proof (Pos.size_gt p) as Hp.
  apply Pos2Z.pos_lt_pos in Hp. now rewrite Pos2Z.inj_pow in Hp.
Qed.

Lemma Zdigits2_le m k : 0 <= m < 2 ^ k -> 0 <= k -> Zdigits2 m <= k.
Proof.
  destruct m as [| p | p]; intros [H0 H1] Hk; [ cbn; lia | | lia ].
  cbn [Zdigits2]. rewrite digits2_pos_size.
  pose proof (Pos.size_le p) as Hp.
  apply Pos2Z.pos_le_pos in Hp. rewrite Pos2Z.inj_pow in Hp.
  destruct (Z_le_gt_dec (Z.pos (Pos.size p)) k) as [Hle | Hgt]; [ exact Hle | exfalso ].
  assert (Hm : 2 ^ Z.succ k <= 2 ^ Z.pos (Pos.size p)) by (apply Z.pow_le_mono_r; lia).
  rewrite Z.pow_succ_r in Hm by lia. lia.
Qed.

(** [shr_1] halves the mantissa. *)
Lemma shr_1_div2 mrs : 0 <= shr_m mrs -> shr_m (shr_1 mrs) = shr_m mrs / 2.
Proof.
  destruct mrs as [m r s]. cbn [shr_m]. intros H. rewrite <- Z.div2_div.
  destruct m as [| p | p]; [ reflexivity | | lia ].
  now destruct p.
Qed.

Lemma pow2_xO p : 2 ^ Z.pos p~0 = 2 ^ Z.pos p * 2 ^ Z.pos p.
Proof.
  replace (Z.pos p~0) with (Z.pos p + Z.pos p) by lia. apply Z.pow_add_r; lia.
Qed.

Lemma pow2_xI p : 2 ^ Z.pos p~1 = 2 * (2 ^ Z.pos p * 2 ^ Z.pos p).
Proof.
  replace (Z.pos p~1) with (1 + (Z.pos p + Z.pos p)) by lia.
  rewrite !Z.pow_add_r by lia. reflexivity.
Qed.

Lemma iter_shr_1_div p :
  forall mrs, 0 <= shr_m mrs ->
    shr_m (SpecFloat.iter_pos shr_1 p mrs) = shr_m mrs / 2 ^ Z.pos p.
Proof.
  assert (Hpos : forall q, 0 < 2 ^ Z.pos q) by (intros q; apply Z.pow_pos_nonneg; lia).
  induction p as [p IH | p IH |]; intros mrs H; cbn [SpecFloat.iter_pos].
  - rewrite IH by (apply iter_shr_1_nonneg; now apply shr_1_nonneg).
    rewrite IH by now apply shr_1_nonneg.
    rewrite shr_1_div2 by assumption.
    pose proof (Hpos p).
    rewrite !Z.div_div by lia. now rewrite pow2_xI.
  - rewrite IH by now apply iter_shr_1_nonneg.
    rewrite IH by assumption.
    pose proof (Hpos p).
    rewrite Z.div_div by lia. now rewrite pow2_xO.
  - rewrite shr_1_div2 by assumption. reflexivity.
Qed.

(** Digits after a right shift. *)
Lemma Zdigits2_shift m n :
  0 <= m -> 0 < n ->
  m / 2 ^ n = 0 \/ (0 < m / 2 ^ n /\ Zdigits2 (m / 2 ^ n) + n <= Zdigits2 m).
Proof.
  intros Hm Hn.
  assert (Hp : 0 < 2 ^ n) by (apply Z.pow_pos_nonneg; lia).
  assert (Hq : 0 <= m / 2 ^ n) by (apply Z.div_pos; lia).
  destruct (Z.eq_dec (m / 2 ^ n) 0) as [E | E]; [ now left | right ].
  split; [ lia | ].
  pose proof (Zdigits2_gt m Hm) as Hd.
  pose proof (Zdigits2_nonneg m) as Hd0.
  destruct (Z_lt_le_dec (Zdigits2 m) n) as [Hlt | Hle].
  - exfalso. apply E. apply Z.div_small. split; [ lia | ].
    apply Z.lt_le_trans with (2 ^ Zdigits2 m); [ lia | ].
    apply Z.pow_le_mono_r; lia.
  - assert (Zdigits2 (m / 2 ^ n) <= Zdigits2 m - n); [ | lia ].
    apply Zdigits2_le; [ | lia ]. split; [ lia | ].
    apply Z.div_lt_upper_bound; [ lia | ].
    rewrite <- Z.pow_add_r by lia. now replace (n + (Zdigits2 m - n)) with (Zdigits2 m) by lia.
Qed.

Lemma shr_fexp_spec m e l :
  0 <= m ->
  0 <= shr_m (fst (shr_fexp prec emax m e l)) /\
  snd (shr_fexp prec emax m e l) = Z.max e (fexp prec emax (Zdigits2 m + e)) /\
  (shr_m (fst (shr_fexp prec emax m e l)) = 0 \/
   Zdigits2 (shr_m (fst (shr_fexp prec emax m e l))) + snd (shr_fexp prec emax m e l)
   <= Zdigits2 m + e).
Proof.
  intros Hm. split; [ now apply shr_fexp_nonneg | ].
  unfold shr_fexp, shr.
  assert (H0 : shr_m (shr_record_of_loc m l) = m) by (now destruct l as [| []]).
  destruct (fexp prec emax (Zdigits2 m + e) - e) as [| p | p] eqn:En; cbn [fst snd].
  - rewrite H0. split; [ lia | right; lia ].
  - rewrite iter_shr_1_div by (rewrite H0; exact Hm). rewrite H0.
    split; [ lia | ].
    destruct (Zdigits2_shift m (Z.pos p) Hm) as [E | [_ E]]; [ lia | now left | right; lia ].
  - rewrite H0. split; [ lia | right; lia ].
Qed.

Lemma round_nearest_even_le m l :
  0 <= m -> 0 <= round_nearest_even m l <= m + 1.
Proof.
  intros H. destruct l as [| []]; cbn; try lia. destruct (Z.even m); lia.
Qed.

Lemma Zdigits2_succ_le a b : 0 <= a <= b + 1 -> 0 <= b -> Zdigits2 a <= Zdigits2 b + 1.
Proof.
  intros Ha Hb. pose proof (Zdigits2_gt b Hb) as Hd. pose proof (Zdigits2_nonneg b).
  apply Zdigits2_le; [ | lia ].
  rewrite Z.pow_add_r by lia. change (2 ^ 1) with 2. lia.
Qed.

(** Rounding a mantissa of magnitude below [2^k] yields a finite value of
    magnitude at most [2^k]. *)
Lemma binary_round_aux_magnitude s m e l k :
  0 <= m -> Zdigits2 m + e <= k -> e <= 104 -> 0 <= k <= 127 ->
  magnitude_below (binary_round_aux prec emax s m e l) (k + 1) = true.
Proof.
  intros Hm HB He Hk. unfold binary_round_aux.
  pose proof (shr_fexp_spec m e l Hm) as (N1 & E1 & D1).
  destruct (shr_fexp prec emax m e l) as [mrs' e']. cbn [fst snd] in N1, E1, D1.
  pose proof (round_nearest_even_le (shr_m mrs') (loc_of_shr_record mrs') N1) as R1.
  set (m1 := round_nearest_even (shr_m mrs') (loc_of_shr_record mrs')) in *.
  assert (Hm1 : 0 <= m1) by lia.
  pose proof (Zdigits2_succ_le m1 (shr_m mrs') R1 N1) as S1.
  pose proof (shr_fexp_spec m1 e' loc_Exact Hm1) as (N2 & E2 & D2).
  destruct (shr_fexp prec emax m1 e' loc_Exact) as [mrs'' e'']. cbn [fst snd] in N2, E2, D2.
  pose proof (Zdigits2_nonneg m) as P0.
  pose proof (Zdigits2_nonneg m1) as P1.
  assert (B1 : Zdigits2 m1 + e' <= k + 1).
  { destruct D1 as [Z1 | D1].
    - rewrite Z1 in S1. cbn in S1. unfold fexp, emin, prec, emax in E1. lia.
    - lia. }
  destruct (shr_m mrs'') as [| p | p] eqn:Ep; [ reflexivity | | lia ].
  destruct D2 as [D2 | D2]; [ discriminate D2 | ].
  cbn [Zdigits2] in D2.
  assert (Hle : e'' <= emax - prec).
  { unfold fexp, emin, prec, emax in *. lia. }
  apply Z.leb_le in Hle. rewrite Hle. cbn [magnitude_below].
  apply Z.leb_le. lia.
Qed.

Lemma magnitude_below_mono x a b :
  a <= b -> magnitude_below x a = true -> magnitude_below x b = true.
Proof.
  intros Hab. destruct x as [| | | s m e]; cbn; auto.
  intros H. apply Z.leb_le in H. apply Z.leb_le. lia.
Qed.

Lemma magnitude_below_finite x k : magnitude_below x k = true -> finite x = true.
Proof. now destruct x. Qed.

Lemma Zdigits2_mul a b :
  0 <= a -> 0 <= b -> Zdigits2 (a * b) <= Zdigits2 a + Zdigits2 b.
Proof.
  intros Ha Hb.
  pose proof (Zdigits2_gt a Ha). pose proof (Zdigits2_gt b Hb).
  pose proof (Zdigits2_nonneg a). pose proof (Zdigits2_nonneg b).
  apply Zdigits2_le; [ | lia ]. split; [ lia | ].
  rewrite Z.pow_add_r by lia. apply Z.mul_lt_mono_nonneg; lia.
Qed.

Lemma fmul_magnitude x y a b :
  magnitude_below x a = true -> magnitude_below y b = true ->
  0 <= a + b <= 100 ->
  magnitude_below (fmul x y) (a + b + 1) = true.
Proof.
  destruct x as [sx | | | sx mx ex], y as [sy | | | sy my ey];
    try discriminate; try reflexivity.
  cbn [magnitude_below]. intros Hx Hy Hk.
  apply Z.leb_le in Hx. apply Z.leb_le in Hy.
  unfold fmul. cbn [SFmul].
  pose proof (Zdigits2_mul (Z.pos mx) (Z.pos my) ltac:(lia) ltac:(lia)) as Hd.
  cbn [Zdigits2] in Hd. change (Z.pos mx * Z.pos my) with (Z.pos (mx * my)) in Hd.
  cbn [Zdigits2] in Hd.
  apply binary_round_aux_magnitude; cbn [Zdigits2]; lia.
Qed.

Lemma iter_xO_pow m d : Z.pos (Pos.iter xO m d) = Z.pos m * 2 ^ Z.pos d.
Proof.
  induction d as [| d IH] using Pos.peano_ind.
  - cbn. lia.
  - rewrite Pos.iter_succ. rewrite Pos2Z.inj_xO, IH.
    rewrite Pos2Z.inj_succ, Z.pow_succ_r by lia. ring.
Qed.

(** [shl_align] keeps the number when the target exponent is not above. *)
Lemma shl_align_spec m e e' :
  e' <= e ->
  Z.pos (fst (shl_align m e e')) = Z.pos m * 2 ^ (e - e') /\
  snd (shl_align m e e') = e'.
Proof.
  intros H. unfold shl_align.
  destruct (e' - e) as [| p | p] eqn:E; cbn [fst snd].
  - replace (e - e') with 0 by lia. cbn. lia.
  - lia.
  - rewrite iter_xO_pow. replace (e - e') with (Z.pos p) by lia. auto.
Qed.

(** In general it yields the number at the lower of the two exponents. *)
Lemma shl_align_digits m e e' :
  Zdigits2 (Z.pos (fst (shl_align m e e'))) + snd (shl_align m e e') <=
    Zdigits2 (Z.pos m) + e /\
  snd (shl_align m e e') <= e.
Proof.
  destruct (Z_le_gt_dec e' e) as [Hle | Hgt].
  - destruct (shl_align_spec m e e' Hle) as [Hm He]. rewrite Hm, He.
    split; [ | lia ].
    pose proof (Zdigits2_gt (Z.pos m) ltac:(lia)) as Hd.
    pose proof (Zdigits2_nonneg (Z.pos m)).
    assert (Zdigits2 (Z.pos m * 2 ^ (e - e')) <= Zdigits2 (Z.pos m) + (e - e')); [ | lia ].
    assert (0 < 2 ^ (e - e')) by (apply Z.pow_pos_nonneg; lia).
    apply Zdigits2_le; [ | lia ]. split; [ lia | ].
    rewrite Z.pow_add_r by lia. apply Z.mul_lt_mono_pos_r; lia.
  - unfold shl_align. destruct (e' - e) as [| p | p] eqn:E; cbn [fst snd]; lia.
Qed.

Lemma binary_normalize_magnitude m e s k :
  Zdigits2 m + e <= k -> e <= 104 -> 0 <= k <= 127 ->
  magnitude_below (binary_normalize prec emax m e s) (k + 1) = true.
Proof.
  intros HB He Hk.
  destruct m as [| p | p]; [ reflexivity | | ]; cbn [binary_normalize Zdigits2] in *;
    unfold binary_round;
    pose proof (shl_align_digits p e (fexp prec emax (Z.pos (digits2_pos p) + e))) as [Hd Hs];
    destruct (shl_align p e _) as [mz ez]; cbn [fst snd Zdigits2] in Hd, Hs;
    apply binary_round_aux_magnitude; cbn [Zdigits2]; lia.
Qed.

Lemma fadd_magnitude x y a b :
  magnitude_below x a = true -> magnitude_below y b = true ->
  0 <= a <= 100 -> 0 <= b <= 100 ->
  magnitude_below (fadd x y) (Z.max a b + 2) = true.
Proof.
  intros Hx Hy Ha Hb.
  destruct x as [sx | | | sx mx ex], y as [sy | | | sy my ey]; try discriminate.
  - now destruct sx, sy.
  - apply magnitude_below_mono with b; [ lia | exact Hy ].
  - apply magnitude_below_mono with a; [ lia | exact Hx ].
  - cbn [magnitude_below] in Hx, Hy. apply Z.leb_le in Hx. apply Z.leb_le in Hy.
    unfold fadd. cbn [SFadd].
    set (ez := Z.min ex ey).
    destruct (shl_align_spec mx ex ez ltac:(lia)) as [Hmx _].
    destruct (shl_align_spec my ey ez ltac:(lia)) as [Hmy _].
    set (px := fst (shl_align mx ex ez)) in *.
    set (py := fst (shl_align my ey ez)) in *.
    replace (Z.max a b + 2) with (Z.max a b + 1 + 1) by lia.
    apply binary_normalize_magnitude; [ | lia | lia ].
    set (K := Z.max a b).
    pose proof (Zdigits2_gt (Z.pos mx) ltac:(lia)) as Dx.
    pose proof (Zdigits2_gt (Z.pos my) ltac:(lia)) as Dy.
    cbn [Zdigits2] in Dx, Dy.
    assert (Px : 0 < 2 ^ (ex - ez)) by (apply Z.pow_pos_nonneg; lia).
    assert (Py : 0 < 2 ^ (ey - ez)) by (apply Z.pow_pos_nonneg; lia).
    assert (Bx : Z.pos px < 2 ^ (K - ez)).
    { rewrite Hmx. apply Z.lt_le_trans with (2 ^ Z.pos (digits2_pos mx) * 2 ^ (ex - ez)).
      - apply Z.mul_lt_mono_pos_r; lia.
      - rewrite <- Z.pow_add_r by lia. apply Z.pow_le_mono_r; lia. }
    assert (By : Z.pos py < 2 ^ (K - ez)).
    { rewrite Hmy. apply Z.lt_le_trans with (2 ^ Z.pos (digits2_pos my) * 2 ^ (ey - ez)).
      - apply Z.mul_lt_mono_pos_r; lia.
      - rewrite <- Z.pow_add_r by lia. apply Z.pow_le_mono_r; lia. }
    assert (HK : 0 <= K - ez) by lia.
    assert (Hsum : forall t, Z.abs t < 2 ^ (K - ez + 1) -> Zdigits2 t + ez <= K + 1).
    { intros t Ht.
      assert (Zdigits2 t = Zdigits2 (Z.abs t)) as -> by (now destruct t).
      assert (Zdigits2 (Z.abs t) <= K - ez + 1); [ | lia ].
      apply Zdigits2_le; lia. }
    apply Hsum. rewrite Z.pow_add_r by lia. change (2 ^ 1) with 2.
    destruct sx, sy; cbn [cond_Zopp]; lia.
Qed.

Local Close Scope Z_scope.

End F32Facts.

(** ** The matrix product *)

Module MultFacts.


Import F32 F32Facts.

Lemma number_inv x : number x = true -> valid x = true /\ finite x = true.
Proof. unfold number. intros H. now apply andb_true_iff in H. Qed.

(** A [std::array<float, 16>] has sixteen entries. *)
Lemma length16_inv {A : Type} (m : list A) :
  length m = 16 ->
  exists a0 a1 a2 a3 a4 a5 a6 a7 a8 a9 a10 a11 a12 a13 a14 a15,
    m = [a0; a1; a2; a3; a4; a5; a6; a7; a8; a9; a10; a11; a12; a13; a14; a15].
Proof.
  intros H.
  do 16 (destruct m as [| ? m]; [ discriminate H | ]).
  destruct m; [ | discriminate H ].
  repeat eexists.
Qed.

(** A sum that one term decides, followed by one more addition. *)
Lemma agrees_then_add r m y :
  agrees r m -> finite m = true -> is_nan y = false ->
  eqb (fadd r y) (fadd m y) = true.
Proof.
  intros Hr Hm Hy. apply same_eqb.
  - apply same_fadd; [ now apply agrees_same | apply same_refl ].
  - now apply fadd_not_nan.
Qed.

Lemma forall2_agrees_eq (r m : list float) :
  Forall2 agrees r m -> ~ In nzero m -> r = m.
Proof.
  induction 1 as [| x y r m [_ Hxy] _ IH]; intros Hin; [ reflexivity | ].
  f_equal.
  - apply Hxy. intros ->. apply Hin. now left.
  - apply IH. intros Hi. apply Hin. now right.
Qed.

End MultFacts.


(** Goals [is_zero t] for a sum of products with a zero factor. *)
Ltac zero_term :=
  repeat apply F32Facts.fadd_zero_zero;
  first [ apply F32Facts.fmul_zero_l;
          [ first [ reflexivity | assumption ]
          | first [ assumption | reflexivity | apply F32Facts.finite_fneg; assumption ] ]
        | apply F32Facts.fmul_zero_r;
          [ first [ assumption | reflexivity | apply F32Facts.finite_fneg; assumption ]
          | first [ reflexivity | assumption ] ]
        | reflexivity
        | assumption ].

(** Goals [agrees t m] for a sum of four products in which one product
    is [m] and the other three are zeros. *)
Ltac unit_sum :=
  repeat first
    [ apply F32Facts.agrees_zero_add; [ zero_term | assumption ]
    | apply F32Facts.agrees_add_zero; [ assumption | | zero_term ]
    | apply F32Facts.agrees_refl; assumption ].

Ltac numbers_inv H :=
  unfold Shape.numbers in H;
  repeat match type of H with
         | Forall _ (_ :: _) =>
             let Hx := fresh "Hx" in
             let Hv := fresh "Hv" in
             let Hf := fresh "Hf" in
             apply Forall_cons_iff in H; destruct H as [Hx H];
             apply MultFacts.number_inv in Hx; destruct Hx as [Hv Hf]
         end.

(** Replace each product known to be a zero by the two zeros it can be. *)
Ltac split_zero_products :=
  repeat match goal with
         | Z : F32.is_zero ?t = true |- _ =>
             destruct t as [[|] | | |]; try discriminate Z; clear Z
         end.

Ltac finite_inv H :=
  unfold Shape.finite_entries in H;
  repeat match type of H with
         | Forall _ (_ :: _) =>
             let Hf := fresh "Hf" in
             apply Forall_cons_iff in H; destruct H as [Hf H]
         end.

(** Open the products of the source at [float]. *)
Ltac open_mat :=
  unfold mat4mult, mat4apply, mat4identity, mat4translate, mat4rotz, at_;
  cbn [nth add mul neg F32.scalar];
  change (@f1 F32.float F32.scalar) with F32.one;
  change (@f0 F32.float F32.scalar) with F32.pzero.

Ltac bounded_inv H :=
  unfold Shape.bounded in H;
  repeat match type of H with
         | Forall _ (_ :: _) =>
             let Hb := fresh "Hb" in
             apply Forall_cons_iff in H; destruct H as [Hb H]
         end.

(** ** Affine matrices of bounded entries *)

Module AffineFacts.

Import F32 F32Facts MultFacts.

Lemma dot4_bounded ka kb x0 x1 x2 x3 y0 y1 y2 y3 :
  (0 <= ka)%Z -> (0 <= kb)%Z -> (ka + kb + 7 <= 100)%Z ->
  magnitude_below x0 ka = true -> magnitude_below x1 ka = true ->
  magnitude_below x2 ka = true -> magnitude_below x3 ka = true ->
  magnitude_below y0 kb = true -> magnitude_below y1 kb = true ->
  magnitude_below y2 kb = true -> magnitude_below y3 kb = true ->
  magnitude_below
    (fadd (fadd (fadd (fmul x0 y0) (fmul x1 y1)) (fmul x2 y2)) (fmul x3 y3))
    (ka + kb + 7) = true.
Proof.
  intros Ha Hb Hk X0 X1 X2 X3 Y0 Y1 Y2 Y3.
  pose proof (fmul_magnitude x0 y0 ka kb X0 Y0 ltac:(lia)) as P0.
  pose proof (fmul_magnitude x1 y1 ka kb X1 Y1 ltac:(lia)) as P1.
  pose proof (fmul_magnitude x2 y2 ka kb X2 Y2 ltac:(lia)) as P2.
  pose proof (fmul_magnitude x3 y3 ka kb X3 Y3 ltac:(lia)) as P3.
  pose proof (fadd_magnitude _ _ _ _ P0 P1 ltac:(lia) ltac:(lia)) as S1.
  rewrite Z.max_id in S1.
  pose proof (fadd_magnitude _ _ _ _ S1 P2 ltac:(lia) ltac:(lia)) as S2.
  rewrite Z.max_l in S2 by lia.
  pose proof (fadd_magnitude _ _ _ _ S2 P3 ltac:(lia) ltac:(lia)) as S3.
  rewrite Z.max_l in S3 by lia.
  apply magnitude_below_mono with (ka + kb + 1 + 2 + 2 + 2)%Z; [ lia | exact S3 ].
Qed.

Lemma mat4mult_bounded (a b : @mat4 float) (ka kb : Z) :
  length a = 16 -> length b = 16 ->
  Shape.bounded ka a -> Shape.bounded kb b ->
  (0 <= ka)%Z -> (0 <= kb)%Z -> (ka + kb + 7 <= 100)%Z ->
  Shape.bounded (ka + kb + 7) (mat4mult a b).
Proof.
  intros La Lb Ba Bb Ha Hb Hk.
  destruct (length16_inv a La)
    as (a0 & a1 & a2 & a3 & a4 & a5 & a6 & a7 & a8 & a9 & a10 & a11 & a12 & a13 & a14 & a15 & ->).
  destruct (length16_inv b Lb)
    as (b0 & b1 & b2 & b3 & b4 & b5 & b6 & b7 & b8 & b9 & b10 & b11 & b12 & b13 & b14 & b15 & ->).
  bounded_inv Ba. bounded_inv Bb.
  unfold Shape.bounded. open_mat.
  repeat (apply Forall_cons; [ apply dot4_bounded; assumption | ]).
  constructor.
Qed.

Lemma bounded_finite k m : Shape.bounded k m -> Shape.finite_entries m.
Proof.
  unfold Shape.bounded, Shape.finite_entries. intros H.
  eapply Forall_impl; [ | exact H ]. intros x. apply magnitude_below_finite.
Qed.

Lemma bounded_mono k k' m : (k <= k')%Z -> Shape.bounded k m -> Shape.bounded k' m.
Proof.
  unfold Shape.bounded. intros Hk H.
  eapply Forall_impl; [ | exact H ]. intros x. now apply magnitude_below_mono.
Qed.

Lemma magnitude_below_fneg x k : magnitude_below (fneg x) k = magnitude_below x k.
Proof. now destruct x. Qed.

Lemma mat4mult_bottom_row (a b : @mat4 float) :
  length b = 16 -> Shape.finite_entries b ->
  Shape.bottom_row a -> Shape.bottom_row b ->
  Shape.bottom_row (mat4mult a b).
Proof.
  intros Hlen Hb (A3 & A7 & A11 & A15) HB.
  destruct (length16_inv b Hlen)
    as (b0 & b1 & b2 & b3 & b4 & b5 & b6 & b7 & b8 & b9 & b10 & b11 & b12 & b13 & b14 & b15 & ->).
  destruct HB as (B3 & B7 & B11 & B15).
  unfold at_ in B3, B7, B11, B15. cbn [nth] in B3, B7, B11, B15. subst b3 b7 b11 b15.
  finite_inv Hb.
  unfold Shape.bottom_row, mat4mult.
  unfold at_ at 1 18 35 52. cbn [nth].
  rewrite A3, A7, A11, A15.
  unfold at_. cbn [nth add mul scalar].
  repeat split.
  - replace (fmul one pzero) with pzero by reflexivity. apply fadd_pzero_r. zero_term.
  - replace (fmul one pzero) with pzero by reflexivity. apply fadd_pzero_r. zero_term.
  - replace (fmul one pzero) with pzero by reflexivity. apply fadd_pzero_r. zero_term.
  - replace (fmul one one) with one by reflexivity. apply fadd_one_zero. zero_term.
Qed.

Lemma affine_mult (ka kb : Z) (a b : @mat4 float) :
  Shape.affine ka a -> Shape.affine kb b ->
  (0 <= ka)%Z -> (0 <= kb)%Z -> (ka + kb + 7 <= 100)%Z ->
  Shape.affine (ka + kb + 7) (mat4mult a b).
Proof.
  intros (La & Ra & Ba) (Lb & Rb & Bb) Ha Hb Hk.
  split; [ reflexivity | ]. split.
  - apply mat4mult_bottom_row; auto. now apply bounded_finite with kb.
  - now apply mat4mult_bounded.
Qed.

Lemma affine_rot (L : Trig float) (x : float) :
  magnitude_below (cos x) 1 = true /\ magnitude_below (sin x) 1 = true ->
  Shape.affine 1 (mat4rotx x) /\ Shape.affine 1 (mat4roty x) /\ Shape.affine 1 (mat4rotz x).
Proof.
  intros [Hc Hs].
  assert (Hn : magnitude_below (fneg (sin x)) 1 = true) by now rewrite magnitude_below_fneg.
  repeat split; repeat (apply Forall_cons; [ first [ assumption | reflexivity ] | ]);
    constructor.
Qed.

Lemma affine_translate (z : float) (k : Z) :
  (1 <= k)%Z -> magnitude_below z k = true ->
  Shape.affine k (mat4translate f0 f0 z).
Proof.
  intros Hk Hz. repeat split.
  repeat (apply Forall_cons;
          [ first [ assumption
                  | apply magnitude_below_mono with 1%Z; [ lia | reflexivity ] ] | ]).
  constructor.
Qed.

Lemma model_views_affine (L : Trig float) (i : frame_input) (s : GL.state) :
  Forall (fun x => magnitude_below (cos x) 1 = true /\ magnitude_below (sin x) 1 = true)
         (Scene.angles i) ->
  forall g m, Scene.model_view g (GL.exec (frame i) s) = Some m ->
              Shape.bottom_row m /\ Shape.finite_entries m.
Proof.
  intros H. unfold Scene.angles in H.
  apply Forall_cons_iff in H. destruct H as [H1 H].
  apply Forall_cons_iff in H. destruct H as [H10 H].
  apply Forall_cons_iff in H. destruct H as [H5 H].
  apply Forall_cons_iff in H. destruct H as [Hphi H].
  apply Forall_cons_iff in H. destruct H as [Htheta H].
  apply Forall_cons_iff in H. destruct H as [Ht _].
  destruct (affine_rot L _ H1) as (_ & Ry1 & _).
  destruct (affine_rot L _ H10) as (Rx10 & _ & _).
  destruct (affine_rot L _ H5) as (Rx5 & _ & _).
  destruct (affine_rot L _ Hphi) as (_ & _ & Rz).
  destruct (affine_rot L _ Htheta) as (Rx & _ & _).
  destruct (affine_rot L _ Ht) as (_ & Ryt & _).
  assert (T : Shape.affine 2 (mat4translate f0 f0 (fneg lit_3_0)))
    by (now apply affine_translate).
  assert (cT : Shape.affine 1 (mat4translate f0 f0 lit_0_8))
    by (now apply affine_translate).
  pose proof (affine_mult 1 1 _ _ Rz Rx ltac:(lia) ltac:(lia) ltac:(lia)) as K.
  pose proof (affine_mult 2 1 _ _ T Ry1 ltac:(lia) ltac:(lia) ltac:(lia)) as A1.
  pose proof (affine_mult _ 1 _ _ A1 Rx10 ltac:(lia) ltac:(lia) ltac:(lia)) as A2.
  pose proof (affine_mult _ _ _ _ A2 K ltac:(lia) ltac:(lia) ltac:(lia)) as A3.
  pose proof (affine_mult 1 1 _ _ Ryt cT ltac:(lia) ltac:(lia) ltac:(lia)) as O1.
  pose proof (affine_mult _ 1 _ _ O1 Rx5 ltac:(lia) ltac:(lia) ltac:(lia)) as O2.
  pose proof (affine_mult 2 1 _ _ T Ryt ltac:(lia) ltac:(lia) ltac:(lia)) as B1.
  pose proof (affine_mult _ 1 _ _ B1 Rx5 ltac:(lia) ltac:(lia) ltac:(lia)) as B2.
  pose proof (affine_mult _ _ _ _ B2 O2 ltac:(lia) ltac:(lia) ltac:(lia)) as B3.
  intros g m Hm.
  destruct g;
    [ change (Scene.model_view GL.Trex (GL.exec (frame i) s)) with
        (Some (mat4mult
                 (mat4mult (mat4mult (mat4translate f0 f0 (fneg lit_3_0)) (mat4roty f1))
                           (mat4rotx tilt10))
                 (mat4mult (mat4rotz (fneg (key_phi i))) (mat4rotx (fneg (key_theta i))))))
        in Hm
    | change (Scene.model_view GL.Sphere (GL.exec (frame i) s)) with
        (Some (mat4mult
                 (mat4mult (mat4mult (mat4translate f0 f0 (fneg lit_3_0))
                                     (mat4roty (orbit_angle (F64.to_float (glfwGetTime i)))))
                           (mat4rotx tilt5))
                 (mat4mult (mat4mult (mat4roty (orbit_angle (F64.to_float (glfwGetTime i))))
                                     (mat4translate f0 f0 lit_0_8))
                           (mat4rotx tilt5))))
        in Hm
    | change (Scene.model_view GL.VertexArray (GL.exec (frame i) s)) with
        (Some (mat4mult
                 (mat4mult (mat4mult (mat4translate f0 f0 (fneg lit_3_0))
                                     (mat4roty (orbit_angle (F64.to_float (glfwGetTime i)))))
                           (mat4rotx tilt5))
                 (mat4mult (mat4mult (mat4roty (orbit_angle (F64.to_float (glfwGetTime i))))
                                     (mat4translate f0 f0 lit_0_8))
                           (mat4rotx tilt5))))
        in Hm ];
    injection Hm as <-.
  - destruct A3 as (_ & R & B). split; [ exact R | now apply bounded_finite with (2 + 1 + 7 + 1 + 7 + (1 + 1 + 7) + 7)%Z ].
  - destruct B3 as (_ & R & B). split; [ exact R | eapply bounded_finite; exact B ].
  - destruct B3 as (_ & R & B). split; [ exact R | eapply bounded_finite; exact B ].
Qed.

End AffineFacts.

Section Product.
Import F32 F32Facts MultFacts.

(** C1: for all matrices [a] and [b], the entry of [mat4mult a b] at
    index [c*4+r] is the sum over [k] of [a[k*4+r] * b[c*4+k]], and column
    [c] of the product is [a] applied to column [c] of [b].  It holds in
    every arithmetic, that of [float] included. *)
Theorem mat4mult_entry {F : Type} {S : Scalar F} (a b : mat4) (c r : nat) :
  c < 4 -> r < 4 ->
  at_ (mat4mult a b) (c * 4 + r) = dot_entry a b c r /\
  column (mat4mult a b) c = mat4apply a (column b c).
Proof.
  intros Hc Hr.
  do 4 (destruct c as [| c]; [ do 4 (destruct r as [| r]; [ now split | ]); lia | ]).
  lia.
Qed.

Lemma mat4mult_entry_witness :
  at_ (mat4mult Sample.a Sample.b) (2 * 4 + 1) = dot_entry Sample.a Sample.b 2 1 /\
  column (mat4mult Sample.a Sample.b) 2 = mat4apply Sample.a (column Sample.b 2).
Proof. apply (@mat4mult_entry float scalar Sample.a Sample.b 2 1); lia. Defined.

(** C6 as stated fails: the product of the identity and a matrix whose
    entry 0 is the negative zero has the positive zero there,
    [1*(-0) + 0*0 + 0*0 + 0*0], so it is not the same array of bits; and
    for a matrix with [+inf] at index 4, entry 0 of its product with the
    identity is [1*1 + inf*0 + 0*0 + 0*0], NaN, which [==] tells apart
    from everything. *)
Lemma identity_product_not_bitwise :
  mat4mult mat4identity Sample.negative_zero_matrix <> Sample.negative_zero_matrix /\
  at_ (mat4mult mat4identity Sample.negative_zero_matrix) 0 = pzero /\
  at_ (mat4mult Sample.infinite_entry_matrix mat4identity) 0 = nan /\
  eqb (at_ (mat4mult Sample.infinite_entry_matrix mat4identity) 0)
      (at_ Sample.infinite_entry_matrix 0) = false.
Proof. repeat split; [ discriminate | .. ]; reflexivity. Qed.

(** C6, as the code has it: for a matrix [M] of finite entries, both
    products with the identity agree with [M] entry by entry under [==],
    and are [M] itself when no entry of [M] is a negative zero. *)
Theorem identity_product_agrees (M : @mat4 float) :
  length M = 16 -> Shape.numbers M ->
  Forall2 agrees (mat4mult mat4identity M) M /\
  Forall2 agrees (mat4mult M mat4identity) M /\
  (~ In nzero M -> mat4mult mat4identity M = M /\ mat4mult M mat4identity = M).
Proof.
  intros Hlen HM.
  destruct (length16_inv M Hlen)
    as (a0 & a1 & a2 & a3 & a4 & a5 & a6 & a7 & a8 & a9 & a10 & a11 & a12 & a13 & a14 & a15 & ->).
  numbers_inv HM.
  assert (HL : Forall2 agrees (mat4mult mat4identity
            [a0; a1; a2; a3; a4; a5; a6; a7; a8; a9; a10; a11; a12; a13; a14; a15])
            [a0; a1; a2; a3; a4; a5; a6; a7; a8; a9; a10; a11; a12; a13; a14; a15]).
  { open_mat. rewrite !fmul_one_l by assumption.
    repeat (apply Forall2_cons; [ unit_sum | ]). constructor. }
  assert (HR : Forall2 agrees (mat4mult
            [a0; a1; a2; a3; a4; a5; a6; a7; a8; a9; a10; a11; a12; a13; a14; a15] mat4identity)
            [a0; a1; a2; a3; a4; a5; a6; a7; a8; a9; a10; a11; a12; a13; a14; a15]).
  { open_mat. rewrite !fmul_one_r by assumption.
    repeat (apply Forall2_cons; [ unit_sum | ]). constructor. }
  split; [ exact HL | split; [ exact HR | ] ].
  intros Hn. split; now apply forall2_agrees_eq.
Qed.

Lemma identity_product_agrees_witness :
  Forall2 agrees (mat4mult mat4identity Sample.a) Sample.a /\
  Forall2 agrees (mat4mult Sample.a mat4identity) Sample.a /\
  mat4mult mat4identity Sample.a = Sample.a /\ mat4mult Sample.a mat4identity = Sample.a.
Proof.
  destruct (identity_product_agrees Sample.a) as (HL & HR & HE);
    [ reflexivity | repeat constructor | ].
  split; [ exact HL | split; [ exact HR | ] ].
  apply HE. cbn. intuition discriminate.
Defined.

End Product.

(** ** Rotation about z, translation, and the bottom row *)

Section Transforms.
Import F32 F32Facts MultFacts AffineFacts.

(** C7: [mat4rotz theta] applied to the column vector (1, 0, 0, 1) yields
    (cos theta, sin theta, 0, 1), the counter-clockwise convention, and not
    the mirrored (cos theta, -sin theta, 0, 1): for every angle whose
    cosine and sine the C library returns as finite values the first two
    components agree with them under [==] (and are them bit for bit unless
    they are a negative zero), and the last two are [0.0f] and [1.0f]; for
    an angle whose cosine and sine are NaN the first two components are
    NaN. *)
Theorem mat4rotz_convention (L : Trig float) (theta : float) :
  let v := mat4apply (mat4rotz theta) [one; pzero; pzero; one] in
  (number (cos theta) = true -> number (sin theta) = true ->
   agrees (at_ v 0) (cos theta) /\ agrees (at_ v 1) (sin theta) /\
   at_ v 2 = pzero /\ at_ v 3 = one /\
   (is_zero (sin theta) = false -> eqb (at_ v 1) (fneg (sin theta)) = false)) /\
  (cos theta = nan -> sin theta = nan -> v = [nan; nan; pzero; one]).
Proof.
  cbv zeta. split.
  - intros Hc Hs.
    apply number_inv in Hc. destruct Hc as [Hvc Hfc].
    apply number_inv in Hs. destruct Hs as [Hvs Hfs].
    open_mat.
    rewrite (fmul_one_r (cos theta)), (fmul_one_r (sin theta)) by assumption.
    assert (H1 : agrees (fadd (fadd (fadd (sin theta) (fmul (cos theta) pzero))
                                    (fmul pzero pzero)) (fmul pzero one)) (sin theta))
      by unit_sum.
    split; [ unit_sum | ]. split; [ exact H1 | ].
    split; [ reflexivity | ]. split; [ reflexivity | ].
    intros Hz. destruct H1 as [_ H1]. rewrite H1 by (intros E; now rewrite E in Hz).
    destruct (sin theta) as [| | | s m e]; try discriminate.
    unfold eqb, SFeqb. cbn. now destruct s.
  - intros Hc Hs. open_mat. rewrite Hc, Hs. reflexivity.
Qed.

Lemma mat4rotz_convention_witness :
  let v := mat4apply (mat4rotz (L := SampleLibm.lib) one) [one; pzero; pzero; one] in
  agrees (at_ v 0) (SampleLibm.cos_series one) /\
  agrees (at_ v 1) (SampleLibm.sin_series one) /\
  at_ v 2 = pzero /\ at_ v 3 = one /\
  (is_zero (SampleLibm.sin_series one) = false ->
   eqb (at_ v 1) (fneg (SampleLibm.sin_series one)) = false).
Proof.
  apply (proj1 (mat4rotz_convention SampleLibm.lib one)); reflexivity.
Defined.

(** C8 as stated fails: the translation by (0, 0, 0) applied to the
    vector (0, +inf, 0, 1) has NaN as its first component, where the claim
    has [0 + 1*0]. *)
Lemma mat4translate_infinite_vector :
  let v := mat4apply (mat4translate pzero pzero pzero) [pzero; pinf; pzero; one] in
  at_ v 0 = nan /\
  eqb (at_ v 0) (fadd pzero (fmul one pzero)) = false.
Proof. split; reflexivity. Qed.

(** C8, as the code has it: [mat4translate x y z] is the identity with
    [x], [y], [z] at indices 12, 13, 14; applied to (0, 0, 0, 1) it yields
    (x, y, z, 1) up to the sign of a zero; applied to a vector (a, b, c, w)
    of finite components, with [x], [y], [z] finite, it yields under [==]
    (a + w*x, b + w*y, c + w*z, w), and (a, b, c, w) when [w] is a zero. *)
Theorem mat4translate_spec (x y z : float) :
  mat4translate x y z =
    [ one; pzero; pzero; pzero;
      pzero; one; pzero; pzero;
      pzero; pzero; one; pzero;
      x; y; z; one ] /\
  (forall i, i < 16 -> i <> 12 -> i <> 13 -> i <> 14 ->
             at_ (mat4translate x y z) i = at_ mat4identity i) /\
  (valid x = true -> valid y = true -> valid z = true ->
   Forall2 same (mat4apply (mat4translate x y z) [pzero; pzero; pzero; one])
           [x; y; z; one]) /\
  (forall a b c w : float,
      Shape.numbers [x; y; z; a; b; c; w] ->
      let v := mat4apply (mat4translate x y z) [a; b; c; w] in
      eqb (at_ v 0) (fadd a (fmul w x)) = true /\
      eqb (at_ v 1) (fadd b (fmul w y)) = true /\
      eqb (at_ v 2) (fadd c (fmul w z)) = true /\
      agrees (at_ v 3) w /\
      (is_zero w = true ->
       agrees (at_ v 0) a /\ agrees (at_ v 1) b /\ agrees (at_ v 2) c)).
Proof.
  split; [ reflexivity | ].
  split.
  { intros i Hi H12 H13 H14.
    do 16 (destruct i as [| i]; [ try reflexivity; congruence | ]). lia. }
  split.
  { intros Hx Hy Hz. open_mat.
    rewrite (fmul_one_r x), (fmul_one_r y), (fmul_one_r z) by assumption.
    assert (Hs : forall t, same (fadd pzero t) t).
    { intros t. destruct (is_zero t) eqn:E.
      - right. split; [ | exact E ]. now rewrite fadd_pzero_l.
      - left. now apply fadd_zero_l. }
    do 3 (apply Forall2_cons; [ apply Hs | ]).
    apply Forall2_cons; [ now left | constructor ]. }
  intros a b c w H. numbers_inv H. cbv zeta. open_mat.
  rewrite (fmul_one_l a), (fmul_one_l b), (fmul_one_l c), (fmul_one_l w) by assumption.
  rewrite (fmul_comm w x), (fmul_comm w y), (fmul_comm w z).
  repeat split.
  - apply agrees_then_add; [ unit_sum | assumption | now apply fmul_not_nan ].
  - apply agrees_then_add; [ unit_sum | assumption | now apply fmul_not_nan ].
  - apply agrees_then_add; [ unit_sum | assumption | now apply fmul_not_nan ].
  - unit_sum.
  - unit_sum.
  - unit_sum.
  - unit_sum.
  - unit_sum.
  - unit_sum.
  - unit_sum.
  - unit_sum.
Qed.

Lemma mat4translate_spec_witness :
  let v := mat4apply (mat4translate (of_Z 5) (of_Z 6) (of_Z 7))
                     [of_Z 1; of_Z 2; of_Z 3; of_Z 0] in
  eqb (at_ v 0) (fadd (of_Z 1) (fmul (of_Z 0) (of_Z 5))) = true /\
  eqb (at_ v 1) (fadd (of_Z 2) (fmul (of_Z 0) (of_Z 6))) = true /\
  eqb (at_ v 2) (fadd (of_Z 3) (fmul (of_Z 0) (of_Z 7))) = true /\
  agrees (at_ v 3) (of_Z 0) /\
  (is_zero (of_Z 0) = true ->
   agrees (at_ v 0) (of_Z 1) /\ agrees (at_ v 1) (of_Z 2) /\ agrees (at_ v 2) (of_Z 3)).
Proof.
  apply (proj2 (proj2 (proj2 (mat4translate_spec (of_Z 5) (of_Z 6) (of_Z 7))))).
  repeat constructor.
Defined.

(** C9 as stated fails: the identity and the translation by (+inf, 0, 0)
    both have the bottom row (0, 0, 0, 1), and entry 15 of their product is
    NaN. *)
Lemma bottom_row_lost :
  Shape.bottom_row mat4identity /\
  Shape.bottom_row (mat4translate pinf pzero pzero) /\
  at_ (mat4mult mat4identity (mat4translate pinf pzero pzero)) 15 = nan /\
  ~ Shape.bottom_row (mat4mult mat4identity (mat4translate pinf pzero pzero)).
Proof.
  split; [ now repeat split | ]. split; [ now repeat split | ].
  split; [ reflexivity | ].
  intros (_ & _ & _ & H). discriminate H.
Qed.

(** C9, as the code has it: every matrix [mat4identity], [mat4rotx],
    [mat4roty], [mat4rotz], [mat4scale] and [mat4translate] return has the
    bottom row (0, 0, 0, 1), bit for bit, whatever the arguments and the C
    library; the product of [a] and [b], both with that bottom row, has it
    again when the entries of [b] are finite; and so has, with finite
    entries throughout, every model-view matrix a frame draws with, when
    the cosines and sines the C library returns for the angles of the
    frame are finite and of absolute value below 2. *)
Theorem bottom_row_preserved :
  (forall (L : Trig float) (angle scale x y z : float),
      Shape.bottom_row mat4identity /\
      Shape.bottom_row (mat4rotx angle) /\
      Shape.bottom_row (mat4roty angle) /\
      Shape.bottom_row (mat4rotz angle) /\
      Shape.bottom_row (mat4scale scale) /\
      Shape.bottom_row (mat4translate x y z)) /\
  (forall a b : @mat4 float,
      length b = 16 -> Shape.finite_entries b ->
      Shape.bottom_row a -> Shape.bottom_row b ->
      Shape.bottom_row (mat4mult a b)) /\
  (forall (L : Trig float) (i : frame_input) (s : GL.state),
      Forall (fun x => magnitude_below (cos x) 1 = true /\
                       magnitude_below (sin x) 1 = true) (Scene.angles i) ->
      forall (g : GL.mesh) (m : @mat4 float),
        Scene.model_view g (GL.exec (frame i) s) = Some m ->
        Shape.bottom_row m /\ Shape.finite_entries m).
Proof.
  split; [ intros; now repeat split | ].
  split; [ exact mat4mult_bottom_row | exact model_views_affine ].
Qed.

Lemma bottom_row_preserved_witness :
  Shape.bottom_row (mat4mult (mat4translate (of_Z 1) (of_Z 2) (of_Z 3)) (mat4scale (of_Z 2))) /\
  (forall (g : GL.mesh) (m : @mat4 float),
      Scene.model_view g
        (GL.exec (frame (L := SampleLibm.lib) (Sample.input 400 400)) Sample.state0) = Some m ->
      Shape.bottom_row m /\ Shape.finite_entries m).
Proof.
  split.
  - apply (proj1 (proj2 bottom_row_preserved)); [ reflexivity | repeat constructor | | ];
      now repeat split.
  - apply (proj2 (proj2 bottom_row_preserved) SampleLibm.lib (Sample.input 400 400)
                 Sample.state0).
    repeat constructor.
Defined.

(** C10 as stated fails: with [a] infinite, entry 0 of the product of the
    two translations is [1*1 + 0*0 + 0*0 + inf*0], NaN, and entry 0 of the
    translation by the sums is [1.0f]. *)
Lemma infinite_translation_product :
  let p := mat4mult (mat4translate pinf pzero pzero) (mat4translate pzero pzero pzero) in
  let t := mat4translate (fadd pinf pzero) (fadd pzero pzero) (fadd pzero pzero) in
  at_ p 0 = nan /\ at_ t 0 = one /\ eqb (at_ p 0) (at_ t 0) = false /\ p <> t.
Proof. repeat split; try reflexivity. discriminate. Qed.

(** C10, as the code has it: for finite [a], [b], [c], [d], [e], [f] the
    product of the translations by (a, b, c) and (d, e, f) agrees under
    [==], entry by entry, with the translation by (a+d, b+e, c+f); the
    entries outside the indices 12, 13, 14 are the same bit for bit. *)
Theorem translate_product (a b c d e f : float) :
  Shape.numbers [a; b; c; d; e; f] ->
  let p := mat4mult (mat4translate a b c) (mat4translate d e f) in
  let t := mat4translate (fadd a d) (fadd b e) (fadd c f) in
  Forall2 (fun x y => eqb x y = true) p t /\
  firstn 12 p = firstn 12 t /\ at_ p 15 = at_ t 15.
Proof.
  intros H. numbers_inv H. cbv zeta.
  pose proof (fmul_zero_r pzero a Hf eq_refl) as Za.
  pose proof (fmul_zero_r pzero b Hf0 eq_refl) as Zb.
  pose proof (fmul_zero_r pzero c Hf1 eq_refl) as Zc.
  pose proof (fmul_zero_l pzero d eq_refl Hf2) as Zd.
  pose proof (fmul_zero_l pzero e eq_refl Hf3) as Ze.
  pose proof (fmul_zero_l pzero f eq_refl Hf4) as Zf.
  open_mat. cbn [firstn nth].
  split; [ | split ].
  - rewrite (fmul_one_l d), (fmul_one_l e), (fmul_one_l f) by assumption.
    rewrite (fmul_one_r a), (fmul_one_r b), (fmul_one_r c) by assumption.
    rewrite (fadd_comm a d), (fadd_comm b e), (fadd_comm c f).
    repeat (apply Forall2_cons;
            [ first [ apply agrees_then_add;
                      [ unit_sum | assumption | now apply finite_not_nan ]
                    | split_zero_products; reflexivity ] | ]).
    constructor.
  - split_zero_products; reflexivity.
  - split_zero_products; reflexivity.
Qed.

Lemma translate_product_witness :
  let p := mat4mult (mat4translate (of_Z 1) (of_Z 2) (of_Z 3))
                    (mat4translate (of_Z 4) (of_Z 5) (of_Z 6)) in
  let t := mat4translate (fadd (of_Z 1) (of_Z 4)) (fadd (of_Z 2) (of_Z 5))
                         (fadd (of_Z 3) (of_Z 6)) in
  Forall2 (fun x y => eqb x y = true) p t /\
  firstn 12 p = firstn 12 t /\ at_ p 15 = at_ t 15.
Proof.
  apply (translate_product (of_Z 1) (of_Z 2) (of_Z 3) (of_Z 4) (of_Z 5) (of_Z 6)).
  repeat constructor.
Defined.

End Transforms.

(** ** The reading of [<cmath>] at [double] *)

Module CmathFacts.

Import F32.

(** Rounding does not look at the sign. *)
Lemma binary_round_aux_negb (p e' : Z) (s : bool) (m e : Z) (l : location) :
  binary_round_aux p e' (negb s) m e l = SFopp (binary_round_aux p e' s m e l).
Proof.
  unfold binary_round_aux.
  destruct (shr_fexp p e' m e l) as [mrs1 e1].
  destruct (shr_fexp p e' _ e1 loc_Exact) as [mrs2 e2].
  destruct (shr_m mrs2); try reflexivity.
  now destruct (e2 <=? e' - p)%Z.
Qed.

(** Negating a [double] and converting it to [float] gives the negated
    [float]. *)
Lemma to_float_opp (d : F64.double) : F64.to_float (SFopp d) = fneg (F64.to_float d).
Proof.
  destruct d as [s | s | | s m e]; try reflexivity.
  cbn [SFopp F64.to_float]. unfold binary_round.
  destruct (shl_align m e _) as [mz ez].
  apply binary_round_aux_negb.
Qed.

(** So where only the functions at [double] are visible, the entry
    [-sin(angle)] of a rotation matrix, negated as a [double] and then
    stored, is the [neg (sin angle)] of the embedding. *)
Lemma double_only_neg_sin (cosd sind tand : F64.double -> F64.double) (x : float) :
  F64.to_float (SFopp (sind (F64.of_float x)))
  = neg (sin (Trig := Cmath.double_only cosd sind tand) x).
Proof. apply to_float_opp. Qed.

End CmathFacts.

(** ** The matrices of the code against those of the specification *)

Module SpecFacts.

Section Generic.
Context {F : Type} {S : Scalar F} {L : Trig F}.







End Generic.

Section Float.
Import F32.
Context {L : Trig float}.



(** Where the sine is neither a zero nor NaN, [mat4roty a] is not the
    right-handed rotation by [a]. *)
Lemma mat4roty_not_right_handed (a : float) :
  sin a <> fneg (sin a) -> mat4roty a <> Spec.rotateY a.
Proof.
  intros H E. apply H.
  apply (f_equal (fun m => at_ m 2)) in E. exact E.
Qed.

End Float.

Section Real.
Import Ideal.


(** The rotations of the specification follow the right-hand rule: by a
    quarter turn, about x the y axis goes to the z axis, about y the z
    axis to the x axis, about z the x axis to the y axis.  [mat4roty]
    takes the z axis to the opposite of the x axis. *)
Lemma quarter_turns :
  mat4apply (Spec.rotateX (PI / 2)%R) [0; 1; 0; 1]%R = [0; 0; 1; 1]%R /\
  mat4apply (Spec.rotateY (PI / 2)%R) [0; 0; 1; 1]%R = [1; 0; 0; 1]%R /\
  mat4apply (Spec.rotateZ (PI / 2)%R) [1; 0; 0; 1]%R = [0; 1; 0; 1]%R /\
  mat4apply (mat4rotx (PI / 2)%R) [0; 1; 0; 1]%R = [0; 0; 1; 1]%R /\
  mat4apply (mat4roty (PI / 2)%R) [0; 0; 1; 1]%R = [-1; 0; 0; 1]%R /\
  mat4apply (mat4rotz (PI / 2)%R) [1; 0; 0; 1]%R = [0; 1; 0; 1]%R.
Proof.
  unfold mat4apply, Spec.rotateX, Spec.rotateY, Spec.rotateZ, Spec.of_rows,
    mat4rotx, mat4roty, mat4rotz, at_, f0, f1.
  cbn [flat_map map nth app cos sin neg add mul of_int trig scalar].
  rewrite cos_PI2, sin_PI2.
  repeat split; repeat (f_equal; try ring).
Qed.

End Real.

End SpecFacts.


(** ** The perspective projection *)

Section Perspective.
Import F32 F32Facts Ideal.

(** C4 as stated fails in the arithmetic of the code: with near 1 and far
    10, which meet the precondition, entry 10 of the matrix is [-(11/9)]
    rounded, -10252743/2^23, entry 14 is [-(20/9)] rounded, -9320676/2^22,
    and the point on the axis at [z = -near] gets the depth
    [10252743/2^23 - 9320676/2^22], which is [-(1 + 2^-23)]: one unit in
    the last place beyond -1. *)
Lemma perspective_near_plane_rounds :
  let half_pi := F64.to_float (F64.div F64.M_PI (F64.of_Z 2)) in
  let P := mat4perspective (L := SampleLibm.lib) half_pi one one (of_Z 10) in
  let clip := mat4apply P [pzero; pzero; fneg one; one] in
  let ndc := perspective_divide clip in
  SFltb pzero one = true /\ SFltb one (of_Z 10) = true /\
  SFltb pzero half_pi = true /\ SFltb half_pi (F64.to_float F64.M_PI) = true /\
  at_ P 10 = S754_finite true 10252743 (-23) /\
  at_ P 14 = S754_finite true 9320676 (-22) /\
  at_ clip 3 = one /\
  at_ ndc 2 = S754_finite true 8388609 (-23) /\
  eqb (at_ ndc 2) (fneg one) = false.
Proof. repeat split; vm_compute; reflexivity. Qed.

(** C4, as the code has it: read over the real numbers, under the
    precondition [far > near > 0] and [0 < fov < pi], the matrix maps the
    point on the axis at [z = -near] to depth -1 and the one at [z = -far]
    to depth +1 after the perspective divide; in [float], with near 1 and
    far 2 the two depths are exactly [-1.0f] and [1.0f], whatever the field
    of view, the aspect ratio and the C library. *)
Theorem perspective_depth_range :
  (forall vfov aspect znear zfar : R,
      (0 < znear < zfar)%R -> (0 < vfov < PI)%R ->
      let P := mat4perspective vfov aspect znear zfar in
      at_ (perspective_divide (mat4apply P [0; 0; - znear; 1]%R)) 2 = (-1)%R /\
      at_ (perspective_divide (mat4apply P [0; 0; - zfar; 1]%R)) 2 = 1%R) /\
  (forall (L : Trig float) (vfov aspect : float),
      let P := mat4perspective vfov aspect one (of_Z 2) in
      at_ (perspective_divide (mat4apply P [pzero; pzero; fneg one; one])) 2 = fneg one /\
      at_ (perspective_divide (mat4apply P [pzero; pzero; fneg (of_Z 2); one])) 2 = one).
Proof.
  split.
  - intros vfov aspect znear zfar [Hn Hf] _. cbv zeta.
    unfold perspective_divide, mat4apply, mat4perspective, at_, f0, f1, f2.
    cbn [nth add sub mul div neg of_int Ideal.scalar].
    split; field; lra.
  - intros L vfov aspect. cbv zeta.
    unfold perspective_divide, mat4apply, mat4perspective, at_.
    cbn [nth]. split; vm_compute; reflexivity.
Qed.

Lemma perspective_depth_range_witness :
  let P := mat4perspective (PI / 2)%R 1%R 1%R 2%R in
  at_ (perspective_divide (mat4apply P [0; 0; - 1; 1]%R)) 2 = (-1)%R /\
  at_ (perspective_divide (mat4apply P [0; 0; - 2; 1]%R)) 2 = 1%R.
Proof.
  apply (proj1 perspective_depth_range (PI / 2)%R 1%R 1%R 2%R).
  - lra.
  - pose proof PI_RGT_0. lra.
Defined.

End Perspective.

(** ** The frame *)

Section FrameFacts.
Import F32 F32Facts SpecFacts Ideal.







(** C5 as stated fails: the code passes the constant [1.0f] as the aspect
    ratio.  In a window of 800 by 400 the projection of the frame is not the
    one of the aspect ratio 2 of the window, and is the one of a window of
    400 by 400. *)
Lemma projection_ignores_window :
  let wide := Sample.input 800 400 in
  let square := Sample.input 400 400 in
  let run i := GL.exec (frame (L := SampleLibm.lib) i) Sample.state0 in
  Scene.aspect wide = of_Z 2 /\
  GL.P (run wide) <>
    mat4perspective (L := SampleLibm.lib) fov (Scene.aspect wide) lit_0_1 lit_100_0 /\
  GL.P (run wide) = GL.P (run square).
Proof.
  cbv zeta. split; [ reflexivity | ]. split; [ | reflexivity ].
  vm_compute. discriminate.
Qed.

(** C5, as the code has it: every frame uploads the projection
    [mat4perspective(pi/3, 1.0, 0.1, 100.0)], with the aspect ratio fixed
    at 1 whatever the size of the window; two frames that differ only in
    the size of the window draw with the same model-view matrices and leave
    the same model-view, illumination and projection uniforms; and in
    [mat4perspective] itself the aspect ratio reaches the entry at index 0
    only. *)
Theorem projection_fixed_aspect (L : Trig float) :
  (forall (i : frame_input) (s : GL.state),
      GL.P (GL.exec (frame i) s) = mat4perspective fov f1 lit_0_1 lit_100_0) /\
  (forall (i j : frame_input) (s : GL.state),
      Scene.same_but_size i j ->
      map GL.draw_MV (GL.draws (GL.exec (frame i) s)) =
      map GL.draw_MV (GL.draws (GL.exec (frame j) s)) /\
      GL.MV (GL.exec (frame i) s) = GL.MV (GL.exec (frame j) s) /\
      GL.T (GL.exec (frame i) s) = GL.T (GL.exec (frame j) s) /\
      GL.P (GL.exec (frame i) s) = GL.P (GL.exec (frame j) s)) /\
  (forall (vfov aspect aspect' znear zfar : float) (k : nat),
      k <> 0 ->
      at_ (mat4perspective vfov aspect znear zfar) k =
      at_ (mat4perspective vfov aspect' znear zfar) k).
Proof.
  split; [ reflexivity | ]. split.
  - intros [w h t kp kt mp mt] [w' h' t' kp' kt' mp' mt'] s.
    unfold Scene.same_but_size. cbn [glfwGetTime key_phi key_theta mouse_phi mouse_theta].
    intros (-> & -> & -> & -> & ->). repeat split.
  - intros vfov aspect aspect' znear zfar k Hk.
    destruct k as [| k]; [ congruence | reflexivity ].
Qed.

Lemma projection_fixed_aspect_witness :
  let run i := GL.exec (frame (L := SampleLibm.lib) i) Sample.state0 in
  map GL.draw_MV (GL.draws (run (Sample.input 400 400))) =
  map GL.draw_MV (GL.draws (run (Sample.input 800 400))) /\
  GL.MV (run (Sample.input 400 400)) = GL.MV (run (Sample.input 800 400)) /\
  GL.T (run (Sample.input 400 400)) = GL.T (run (Sample.input 800 400)) /\
  GL.P (run (Sample.input 400 400)) = GL.P (run (Sample.input 800 400)).
Proof.
  apply (proj1 (proj2 (projection_fixed_aspect SampleLibm.lib))
               (Sample.input 400 400) (Sample.input 800 400) Sample.state0).
  repeat split.
Defined.

End FrameFacts.
